(** * SyDthon: the pitch-to-register quantizer and the PSID header writer

    A shallow embedding of [mp3_to_sid.py].  Python floats are IEEE-754
    binary64 values ([spec_float] at precision 53, with the arithmetic of
    [SpecFloat]), byte strings are [list byte], the file object handed to
    [write_sid_header] is the list of bytes written so far, and a raised
    exception is the [Raise] branch of [result].  What lies outside the
    program is a parameter of a run: the pitch track or exception the
    decoding stages hand back, and whether opening the destination,
    storing its bytes and the final [print] raise.

    The first part holds the definitions, the second the properties of
    the header writer and of the conversion run, the third the rounding
    theory of binary64 on which the properties of the quantizer rest. *)

From Stdlib Require Import ZArith List String Ascii Bool Lia.
From Stdlib Require Import Strings.Byte Floats.SpecFloat.
From stdpp Require Import gmap strings.
Import ListNotations.

Local Open Scope Z_scope.

(** ** The Python fragment the program relies on *)

Module Py.

(** Exceptions the modelled code can raise. *)
Inductive exn : Set :=
| OverflowError
| ValueError
| StructError
| UnicodeEncodeError
| OSError
| ExternalError.

Inductive result (A : Type) : Type :=
| Ok (a : A)
| Raise (e : exn).
Arguments Ok {A} a.
Arguments Raise {A} e.

Definition rbind {A B} (r : result A) (k : A -> result B) : result B :=
  match r with
  | Ok a => k a
  | Raise e => Raise e
  end.

(** A list comprehension whose body may raise: the first exception
    aborts the whole comprehension. *)
Fixpoint comprehension {A B} (f : A -> result B) (l : list A)
  : result (list B) :=
  match l with
  | [] => Ok []
  | x :: l' =>
      rbind (f x) (fun y =>
      rbind (comprehension f l') (fun ys => Ok (y :: ys)))
  end.

(** *** binary64 floats *)

Definition prec : Z := 53.
Definition emax : Z := 1024.

Definition float : Set := spec_float.

Definition fmul : float -> float -> float := SFmul prec emax.
Definition fdiv : float -> float -> float := SFdiv prec emax.
Definition fleb : float -> float -> bool := SFleb.
Definition fltb : float -> float -> bool := SFltb.

(** A well-formed binary64: the mantissa and exponent are the canonical
    ones.  Every float the interpreter holds is of this form. *)
Definition wf (x : float) : bool := valid_binary prec emax x.

(** [float(n)] for a Python int, correctly rounded. *)
Definition float_of_int (n : Z) : float :=
  binary_normalize prec emax n 0 false.

Definition is_finite (x : float) : bool :=
  match x with
  | S754_zero _ | S754_finite _ _ _ => true
  | _ => false
  end.

(** The integer nearest to [n / d] for [0 <= n] and [0 < d], ties going
    to the even one. *)
Definition rne_div (n d : Z) : Z :=
  let q := n / d in
  let r := n mod d in
  match 2 * r ?= d with
  | Lt => q
  | Eq => if Z.even q then q else q + 1
  | Gt => q + 1
  end.

(** [np.round(x)] with the default [decimals=0]: rint, that is the
    nearest integral float, ties to even; zeros, infinities and NaN
    are returned as they are. *)
Definition np_round (x : float) : float :=
  match x with
  | S754_finite s m e =>
      if 0 <=? e then x
      else binary_normalize prec emax
             (cond_Zopp s (rne_div (Z.pos m) (2 ^ (- e)))) 0 s
  | _ => x
  end.

(** [int(x)]: truncation toward zero; infinities and NaN raise. *)
Definition int (x : float) : result Z :=
  match x with
  | S754_zero _ => Ok 0
  | S754_finite s m e =>
      Ok (cond_Zopp s (if 0 <=? e then Z.pos m * 2 ^ e
                       else Z.pos m / 2 ^ (- e)))
  | S754_infinity _ => Raise OverflowError
  | S754_nan => Raise ValueError
  end.

(** *** bytes *)

Definition byte_of_Z (z : Z) : byte :=
  match Byte.of_N (Z.to_N (z mod 256)) with
  | Some b => b
  | None => x00
  end.

Definition Z_of_byte (b : byte) : Z := Z.of_N (Byte.to_N b).

(** [struct.pack('>H', v)]: two bytes, most significant first;
    [struct.error] outside [0, 65535]. *)
Definition struct_pack_BE_H (v : Z) : result (list byte) :=
  if (0 <=? v) && (v <=? 65535)
  then Ok [byte_of_Z (v / 256); byte_of_Z v]
  else Raise StructError.

(** [text.encode('ascii')]: one byte per character, an error on any
    character above 127. *)
Definition encode_ascii (text : string) : result (list byte) :=
  let bs := list_byte_of_string text in
  if forallb (fun b => Z_of_byte b <? 128) bs
  then Ok bs
  else Raise UnicodeEncodeError.

(** [b'\x00' * n]: empty when [n] is not positive. *)
Definition zeros (n : Z) : list byte := repeat x00 (Z.to_nat n).

(** [data[:n]] for [0 <= n]. *)
Definition slice_to (n : Z) (data : list byte) : list byte :=
  firstn (Z.to_nat n) data.

Definition len (data : list byte) : Z := Z.of_nat (List.length data).

(** *** a binary file opened for writing

    The state is what has been written so far.  A raise keeps the
    state: bytes written before it stay written. *)

Definition file : Set := list byte.

Definition io (A : Type) : Type := file -> result A * file.

Definition ret {A} (a : A) : io A := fun f => (Ok a, f).

Definition bind {A B} (m : io A) (k : A -> io B) : io B :=
  fun f =>
    match m f with
    | (Ok a, f') => k a f'
    | (Raise e, f') => (Raise e, f')
    end.

Definition lift {A} (r : result A) : io A := fun f => (r, f).

(** [f.write(data)] *)
Definition write (data : list byte) : io unit :=
  fun f => (Ok tt, f ++ data).

(** [for x in xs: body(x)] *)
Fixpoint for_each {A} (xs : list A) (body : A -> io unit) : io unit :=
  match xs with
  | [] => ret tt
  | x :: xs' => bind (body x) (fun _ => for_each xs' body)
  end.

End Py.

Import Py.

Notation "x <- m ;; k" := (bind m (fun x => k))
  (at level 100, m at next level, right associativity).
Notation "m ;;; k" := (bind m (fun _ => k))
  (at level 100, right associativity).

(** ** mp3_to_sid.py *)

(** Clock rates for audio chips. *)
Definition SID_CLOCKS : gmap string Z :=
  <["6581"%string := 985248]> (<["8580"%string := 1022730]> ∅).

(** [SID_CLOCKS.get(chip, SID_CLOCKS['6581'])].  The subscript
    [SID_CLOCKS['6581']] would raise [KeyError] on a missing key; the
    key is present, so the default is its value. *)
Definition clock_of (chip : string) : Z :=
  default (default 0 (SID_CLOCKS !! "6581"%string)) (SID_CLOCKS !! chip).

(** The quotient [freq * (1 << 24) / clock], evaluated left to right in
    binary64. *)
Definition scaled (freq : float) (clock : Z) : float :=
  fdiv (fmul freq (float_of_int (Z.shiftl 1 24))) (float_of_int clock).

(** Convert a frequency in Hz to a 16-bit SID frequency word.  [freq] is
    a Python float; [freq <= 0] is false for NaN, which then reaches
    [int] and raises. *)
Definition freq_to_sid_value (freq : float) (chip : string) : result Z :=
  if fleb freq (S754_zero false) then Ok 0
  else
    let clock := clock_of chip in
    rbind (int (np_round (scaled freq clock))) (fun n =>
    let value := Z.land n 0xFFFF in
    Ok value).

(** Flags: bit0 = PAL, bit1 = NTSC. *)
Definition header_flags (chip : string) : Z :=
  let flags := 0 in
  let flags := if String.eqb chip "6581" then Z.lor flags 1 else flags in
  let flags := if String.eqb chip "8580" then Z.lor flags 2 else flags in
  flags.

Definition header_texts : list string :=
  ["MP3->SID Converter"; "Maurizio Ruscio"; "2025"]%string.

(** The body of the loop over the three texts. *)
Definition write_text (text : string) : io unit :=
  encoded <- lift (encode_ascii text) ;;
  let data := slice_to 32 encoded in
  write (data ++ zeros (32 - len data)).

Definition write_H (v : Z) : io unit :=
  packed <- lift (struct_pack_BE_H v) ;; write packed.

Definition write_sid_header (song_length : Z) (chip : string) : io unit :=
  write ["P"; "S"; "I"; "D"]%byte ;;;
  write_H 2 ;;;
  write_H 0x007C ;;;
  write_H 0x1000 ;;;
  write_H 0x1000 ;;;
  write_H 0x1003 ;;;
  write_H song_length ;;;
  write_H 1 ;;;
  write_H (header_flags chip) ;;;
  write [x00; x00] ;;;
  for_each header_texts write_text.

(** The destination path of a conversion: absent, or a file with its
    content. *)
Definition dest : Set := option file.

(** What the operating system answers in the last lines of a run:
    whether [open(sid_path, 'wb')] raises; whether the bytes handed to
    the file object reach the file, and if not, the exception raised by
    the failing write or by the close and the number of bytes that did
    reach it; whether the final [print] raises. *)
Record system : Set :=
  { open_raises : option exn;
    store_raises : option (exn * nat);
    print_raises : option exn }.

(** A system on which nothing fails. *)
Definition quiet : system :=
  {| open_raises := None; store_raises := None; print_raises := None |}.

(** A system whose standard output is gone: only the [print] fails. *)
Definition print_fails : system :=
  {| open_raises := None; store_raises := None;
     print_raises := Some OSError |}.

(** [convert_mp3_to_sid].  Decoding the MP3 and tracking its pitch are
    external; [oracle] is what they hand back: the pitch track, or the
    exception they raised.  They write the WAV file, which is taken to
    be another file than the destination.  [open(sid_path, 'wb')]
    raises and leaves the destination alone, or creates or truncates it;
    leaving the [with] block closes the file whether or not the body
    raised, and an exception of the close replaces the one of the body.
    The [print] comes last, after the file is closed. *)
Definition convert_mp3_to_sid (oracle : result (list float)) (os : system)
    (chip : string) (d : dest) : result unit * dest :=
  match oracle with
  | Raise e => (Raise e, d)
  | Ok pitch_track =>
      match comprehension (fun freq => freq_to_sid_value freq chip)
              pitch_track with
      | Raise e => (Raise e, d)
      | Ok sid_values =>
          match open_raises os with
          | Some e => (Raise e, d)
          | None =>
              let '(r, f) := write_sid_header 1 chip [] in
              match store_raises os with
              | Some (e, n) => (Raise e, Some (firstn n f))
              | None =>
                  match r with
                  | Raise e => (Raise e, Some f)
                  | Ok _ =>
                      match print_raises os with
                      | Some e => (Raise e, Some f)
                      | None => (Ok tt, Some f)
                      end
                  end
              end
          end
      end
  end.

(** ** Reading a header back *)

(** The big-endian 16-bit field at byte offset [off]. *)
Definition field_BE16 (off : nat) (data : list byte) : option Z :=
  match skipn off data with
  | hi :: lo :: _ => Some (256 * Z_of_byte hi + Z_of_byte lo)
  | _ => None
  end.

(** The [n] bytes at byte offset [off]. *)
Definition field_bytes (off n : nat) (data : list byte) : list byte :=
  firstn n (skipn off data).

Definition declared_data_offset (header : list byte) : option Z :=
  field_BE16 6 header.

(** ** The container as the specification words it *)

(** A 16-bit word as two bytes, least significant first. *)
Definition spec_word_LE (w : Z) : list byte :=
  [byte_of_Z w; byte_of_Z (w / 256)].

(** Header, then the driver code, then the register words. *)
Definition spec_sid_file (header driver : list byte) (words : list Z)
  : list byte :=
  header ++ driver ++ flat_map spec_word_LE words.

(** ** The header as one byte string *)

(** The two bytes of [struct.pack('>H', v)] for [v] in range. *)
Definition BE_H (v : Z) : list byte := [byte_of_Z (v / 256); byte_of_Z v].

(** A text cut to 32 bytes and filled up with zero bytes. *)
Definition padded32 (text : string) : list byte :=
  let data := firstn 32 (list_byte_of_string text) in
  data ++ repeat x00 (32 - List.length data).

Definition header_image (song_length : Z) (chip : string) : list byte :=
  ["P"; "S"; "I"; "D"]%byte ++ BE_H 2 ++ BE_H 0x7C ++ BE_H 0x1000 ++
  BE_H 0x1000 ++ BE_H 0x1003 ++ BE_H song_length ++ BE_H 1 ++
  BE_H (header_flags chip) ++ [x00; x00] ++
  padded32 "MP3->SID Converter" ++ padded32 "Maurizio Ruscio" ++
  padded32 "2025".

(** The binary64 value of a frequency literal. *)
Definition hz (n : Z) : float := float_of_int n.

(** ** Claims of the specification, as predicates on the code *)


(** Above zero the quantizer never raises: it returns the rounded
    quotient masked to 16 bits. *)
Definition claim_quantize_wraps (freq : float) (chip : string) : Prop :=
  fltb (S754_zero false) freq = true ->
  exists n,
    int (np_round (scaled freq (clock_of chip))) = Ok n /\
    freq_to_sid_value freq chip = Ok (Z.land n 0xFFFF).

(** ** Notions for the rounding of binary64

    Every finite binary64 is an integer multiple of [2^-1074]; [ulps]
    is that integer.  The arithmetic of [SpecFloat] is then described
    on integers: an operation rounds an exact quotient [P / Q], given
    in those units, to 53 significant bits ([round53]) and stores the
    result ([float_of_ulps]). *)

(** The exponent of the smallest subnormal, -1074. *)
Definition emin : Z := SpecFloat.emin prec emax.

(** The value of a finite float in units of [2^-1074]; 0 for the
    others. *)
Definition ulps (x : spec_float) : Z :=
  match x with
  | S754_finite _ m e => Z.pos m * 2 ^ (e + 1074)
  | _ => 0
  end.

(** Where the remainder [r] of a division by [d] lies: nowhere (the
    division is exact), below, at or above the half of [d]. *)
Definition loc_of_rem (r d : Z) : location :=
  if r =? 0 then loc_Exact else loc_Inexact (2 * r ?= d).

(** The floor of [N / D] with the location of what the floor drops, as
    the record on which [shr_1] works. *)
Definition located (N D : Z) : shr_record :=
  shr_record_of_loc (N / D) (loc_of_rem (N mod D) D).

(** [P / Q] rounded to the nearest integer of at most 53 significant
    bits, ties to even: the [k] bits below the 53 leading ones of the
    floor are rounded away. *)
Definition round53 (P Q : Z) : Z :=
  let k := Z.max (Zdigits2 (P / Q) - 53) 0 in
  rne_div P (Q * 2 ^ k) * 2 ^ k.

(** The float of sign [s] whose value is [X] units of [2^-1074], for an
    [X] of at most 53 significant bits; infinity when [X] is too large
    for the format. *)
Definition float_of_ulps (s : bool) (X : Z) : spec_float :=
  if X <=? 0 then S754_zero s
  else
    let k := Z.max (Zdigits2 X - prec) 0 in
    if k + emin <=? emax - prec
    then S754_finite s (Z.to_pos (X / 2 ^ k)) (k + emin)
    else S754_infinity s.

(** At most 53 significant bits. *)
Definition fits53 (X : Z) : Prop :=
  exists r j, 0 <= j /\ 0 <= r <= 2 ^ 53 /\ X = r * 2 ^ j.

(** ** The pitch selection of extract_pitch_track *)

Module Np.

(** What [argmax] and indexing raise. *)
Inductive exn : Set :=
| ValueError
| IndexError.

Inductive result (A : Type) : Type :=
| Ok (a : A)
| Raise (e : exn).
Arguments Ok {A} a.
Arguments Raise {A} e.

Definition bind {A B} (r : result A) (k : A -> result B) : result B :=
  match r with
  | Ok a => k a
  | Raise e => Raise e
  end.

(** A two-dimensional float array: its shape and its items. *)
Record ndarray2 : Type :=
  { shape0 : nat; shape1 : nat; item : nat -> nat -> float }.

Definition isnan (x : float) : bool :=
  match x with
  | S754_nan => true
  | _ => false
  end.

(** The scan of [argmax] over the items after the first: [mp] is the
    largest item so far and [max_ind] its index; an item replaces it
    when [item <= mp] is false, and a NaN ends the scan. *)
Fixpoint argmax_scan (mp : float) (max_ind i : nat) (ip : list float) : nat :=
  match ip with
  | [] => max_ind
  | x :: ip' =>
      if negb (fleb x mp)
      then if isnan x then i else argmax_scan x i (S i) ip'
      else argmax_scan mp max_ind (S i) ip'
  end.

(** [a.argmax()] of a one-dimensional array: the index of the first
    largest item, of the first NaN if there is one; an empty array
    raises. *)
Definition argmax (a : list float) : result nat :=
  match a with
  | [] => Raise ValueError
  | x :: ip => Ok (if isnan x then 0%nat else argmax_scan x 0 1 ip)
  end.

(** [a[:, i]] for [0 <= i]. *)
Definition column (a : ndarray2) (i : nat) : result (list float) :=
  if (i <? shape1 a)%nat
  then Ok (map (fun r => item a r i) (seq 0 (shape0 a)))
  else Raise IndexError.

(** [a[r, i]] for [0 <= r] and [0 <= i]. *)
Definition get (a : ndarray2) (r i : nat) : result float :=
  if ((r <? shape0 a)%nat && (i <? shape1 a)%nat)%bool
  then Ok (item a r i)
  else Raise IndexError.

End Np.

(** The body of the loop of [extract_pitch_track], for the frames still
    to come: the pitch of the bin whose magnitude is the largest. *)
Fixpoint pitch_frames (pitches magnitudes : Np.ndarray2) (frames : list nat)
  : Np.result (list float) :=
  match frames with
  | [] => Np.Ok []
  | i :: rest =>
      Np.bind (Np.column magnitudes i) (fun col =>
      Np.bind (Np.argmax col) (fun idx =>
      Np.bind (Np.get pitches idx i) (fun pitch =>
      Np.bind (pitch_frames pitches magnitudes rest) (fun track =>
      Np.Ok (pitch :: track)))))
  end.

(** [pitch_track] as the loop over [range(pitches.shape[1])] leaves
    it. *)
Definition pitch_track_of (pitches magnitudes : Np.ndarray2)
  : Np.result (list float) :=
  pitch_frames pitches magnitudes (seq 0 (Np.shape1 pitches)).

(** The item the scan of [argmax] has settled on when it answers [k],
    having started at index [i] with [mp] in hand: [mp] itself while
    nothing has replaced it. *)
Definition scan_top (mp : float) (i k : nat) (ip : list float) : float :=
  if (k <? i)%nat then mp else nth (k - i) ip S754_nan.

(** A spectrogram of three bins and two frames, for the examples. *)
Definition sample_magnitudes : Np.ndarray2 :=
  {| Np.shape0 := 3; Np.shape1 := 2;
     Np.item := fun r i =>
       match r, i with
       | 1%nat, 0%nat => hz 5
       | 2%nat, 1%nat => hz 4
       | _, _ => hz 0
       end |}.

Definition sample_pitches : Np.ndarray2 :=
  {| Np.shape0 := 3; Np.shape1 := 2;
     Np.item := fun r i =>
       match r, i with
       | 1%nat, 0%nat => hz 440
       | 2%nat, 1%nat => hz 880
       | _, _ => hz 0
       end |}.

(** ** Paths *)

Module Path.

(** [s.rfind(c)] for a one-character [c], the indices of [s] starting
    at [i]: the last index of [c], or [-1]. *)
Fixpoint rfind_from (c : ascii) (s : string) (i : Z) : Z :=
  match s with
  | EmptyString => -1
  | String a s' =>
      let r := rfind_from c s' (i + 1) in
      if 0 <=? r then r else if Ascii.eqb a c then i else -1
  end.

Definition rfind (s : string) (c : ascii) : Z := rfind_from c s 0.

(** [s[:n]] and [s[n:]] for [0 <= n]. *)
Fixpoint take (n : nat) (s : string) : string :=
  match n, s with
  | S n', String a s' => String a (take n' s')
  | _, _ => EmptyString
  end.

Fixpoint drop (n : nat) (s : string) : string :=
  match n, s with
  | S n', String _ s' => drop n' s'
  | _, _ => s
  end.

(** The [while] loop of [splitext]: it looks at the characters from
    [filenameIndex] up to [dotIndex] and answers whether one of them is
    not a dot. *)
Fixpoint has_name (fuel : nat) (p : string) (filenameIndex : Z) : bool :=
  match fuel with
  | O => false
  | S fuel' =>
      match String.get (Z.to_nat filenameIndex) p with
      | Some a =>
          if Ascii.eqb a "." then has_name fuel' p (filenameIndex + 1)
          else true
      | None => true
      end
  end.

(** [posixpath.splitext]: the extension starts at the last dot of the
    last component, unless that component has only dots before it. *)
Definition splitext (p : string) : string * string :=
  let sepIndex := rfind p "/" in
  let dotIndex := rfind p "." in
  if (sepIndex <? dotIndex)
     && has_name (Z.to_nat (dotIndex - (sepIndex + 1))) p (sepIndex + 1)
  then (take (Z.to_nat dotIndex) p, drop (Z.to_nat dotIndex) p)
  else (p, EmptyString).

End Path.

(** [wav_path] of [convert_mp3_to_sid]. *)
Definition wav_path_of (mp3_path : string) : string :=
  let '(base, _) := Path.splitext mp3_path in
  String.append base ".wav".

(** [out_file] of the command line: [args.output] when it is given and
    not empty, else the input with its extension replaced. *)
Definition out_file_of (input : string) (output : option string) : string :=
  let derived := String.append (fst (Path.splitext input)) ".sid" in
  match output with
  | Some o => if String.eqb o "" then derived else o
  | None => derived
  end.

(** * Properties *)

(** ** Bytes and 16-bit fields *)

Lemma Z_of_byte_of_Z v : Z_of_byte (byte_of_Z v) = v mod 256.
Proof.
  unfold Z_of_byte, byte_of_Z.
  assert (Hm : 0 <= v mod 256 < 256) by (apply Z.mod_pos_bound; lia).
  destruct (Byte.of_N (Z.to_N (v mod 256))) as [b|] eqn:E.
  - rewrite (Byte.to_of_N _ E). apply Z2N.id. lia.
  - apply Byte.of_N_None_iff in E. lia.
Qed.

Lemma BE_H_decode v rest :
  0 <= v <= 65535 ->
  field_BE16 0 (BE_H v ++ rest) = Some v.
Proof.
  intros Hv. unfold field_BE16, BE_H. cbn [skipn app].
  rewrite !Z_of_byte_of_Z. f_equal.
  rewrite (Z.mod_small (v / 256))
    by (split; [apply Z.div_pos; lia | apply Z.div_lt_upper_bound; lia]).
  pose proof (Z.div_mod v 256). lia.
Qed.

Lemma field_BE16_skip off pre data :
  List.length pre = off -> field_BE16 off (pre ++ data) = field_BE16 0 data.
Proof.
  intros <-. unfold field_BE16.
  rewrite List.skipn_app, List.skipn_all, Nat.sub_diag.
  reflexivity.
Qed.

(** ** The header writer, step by step *)

Lemma write_H_ok v f :
  0 <= v <= 65535 -> write_H v f = (Ok tt, f ++ BE_H v).
Proof.
  intros Hv. unfold write_H, bind, lift, write, struct_pack_BE_H.
  replace ((0 <=? v) && (v <=? 65535)) with true; [reflexivity|].
  symmetry. apply andb_true_iff. split; apply Z.leb_le; lia.
Qed.

Lemma write_H_raise v f :
  ~ 0 <= v <= 65535 -> write_H v f = (Raise StructError, f).
Proof.
  intros Hv. unfold write_H, bind, lift, write, struct_pack_BE_H.
  destruct ((0 <=? v) && (v <=? 65535)) eqn:E; [|reflexivity].
  apply andb_true_iff in E. destruct E as [E1 E2].
  apply Z.leb_le in E1, E2. lia.
Qed.

Lemma header_flags_cases chip :
  (chip = "6581"%string /\ header_flags chip = 1) \/
  (chip = "8580"%string /\ header_flags chip = 2) \/
  (chip <> "6581"%string /\ chip <> "8580"%string /\ header_flags chip = 0).
Proof.
  unfold header_flags.
  destruct (String.eqb_spec chip "6581") as [-> | H1];
    [left; split; reflexivity|].
  destruct (String.eqb_spec chip "8580") as [-> | H2];
    [right; left; split; reflexivity|].
  right; right; repeat split; assumption.
Qed.

Lemma header_flags_range chip : 0 <= header_flags chip <= 65535.
Proof.
  destruct (header_flags_cases chip) as [[_ ->] | [[_ ->] | (_ & _ & ->)]];
    lia.
Qed.

Lemma write_text_fixed f :
  for_each header_texts write_text f =
  (Ok tt, f ++ padded32 "MP3->SID Converter" ++ padded32 "Maurizio Ruscio" ++
          padded32 "2025").
Proof.
  unfold header_texts, for_each, bind, ret, write_text, bind, lift, write.
  cbn. rewrite <- !app_assoc. reflexivity.
Qed.

(** With a song count that fits 16 bits the writer never raises and
    appends [header_image]. *)
Lemma write_sid_header_ok song_length chip f :
  0 <= song_length <= 65535 ->
  write_sid_header song_length chip f =
  (Ok tt, f ++ header_image song_length chip).
Proof.
  intros Hs. unfold write_sid_header, bind at 1 2 3 4 5 6 7 8 9 10.
  unfold write at 1.
  rewrite !write_H_ok by (try apply header_flags_range; lia).
  unfold write at 1. rewrite write_text_fixed.
  unfold header_image. rewrite <- !app_assoc. reflexivity.
Qed.

(** Otherwise [struct.pack] raises at the song count, after the magic and
    five fields have gone out. *)
Lemma write_sid_header_raise song_length chip f :
  ~ 0 <= song_length <= 65535 ->
  write_sid_header song_length chip f =
  (Raise StructError,
   f ++ ["P"; "S"; "I"; "D"]%byte ++ BE_H 2 ++ BE_H 0x7C ++ BE_H 0x1000 ++
        BE_H 0x1000 ++ BE_H 0x1003).
Proof.
  intros Hs. unfold write_sid_header, bind at 1 2 3 4 5 6.
  unfold write at 1.
  rewrite !write_H_ok by lia.
  unfold bind. rewrite write_H_raise by assumption.
  rewrite <- !app_assoc. reflexivity.
Qed.

Lemma header_image_length song_length chip :
  List.length (header_image song_length chip) = 118%nat.
Proof. reflexivity. Qed.

Lemma header_image_data_offset song_length chip :
  declared_data_offset (header_image song_length chip) = Some 124.
Proof. reflexivity. Qed.

Lemma header_image_flags song_length chip :
  field_BE16 18 (header_image song_length chip) = Some (header_flags chip).
Proof.
  unfold header_image.
  change (field_BE16 18
    ((["P"; "S"; "I"; "D"]%byte ++ BE_H 2 ++ BE_H 124 ++ BE_H 4096 ++
      BE_H 4096 ++ BE_H 4099 ++ BE_H song_length ++ BE_H 1) ++
     BE_H (header_flags chip) ++ [x00; x00] ++
     padded32 "MP3->SID Converter" ++ padded32 "Maurizio Ruscio" ++
     padded32 "2025") = Some (header_flags chip)).
  rewrite field_BE16_skip by reflexivity.
  apply BE_H_decode, header_flags_range.
Qed.

Lemma header_image_songs song_length chip :
  0 <= song_length <= 65535 ->
  field_BE16 14 (header_image song_length chip) = Some song_length.
Proof.
  intros Hs. unfold header_image.
  change (field_BE16 14
    ((["P"; "S"; "I"; "D"]%byte ++ BE_H 2 ++ BE_H 124 ++ BE_H 4096 ++
      BE_H 4096 ++ BE_H 4099) ++
     BE_H song_length ++ BE_H 1 ++
     BE_H (header_flags chip) ++ [x00; x00] ++
     padded32 "MP3->SID Converter" ++ padded32 "Maurizio Ruscio" ++
     padded32 "2025") = Some song_length).
  rewrite field_BE16_skip by reflexivity.
  apply BE_H_decode, Hs.
Qed.

(** ** The conversion run *)

(** A run reports success only when nothing failed on the way, and
    then the destination holds the header. *)
Lemma convert_mp3_to_sid_ok pitch_track os chip d d' :
  convert_mp3_to_sid (Ok pitch_track) os chip d = (Ok tt, d') ->
  d' = Some (header_image 1 chip) /\
  open_raises os = None /\ store_raises os = None /\ print_raises os = None.
Proof.
  unfold convert_mp3_to_sid.
  destruct (comprehension _ pitch_track) as [values | e]; [|discriminate].
  destruct (open_raises os); [discriminate|].
  rewrite write_sid_header_ok by lia. cbn [app].
  destruct (store_raises os) as [[e n]|]; [discriminate|].
  destruct (print_raises os); [discriminate|].
  intros [= <-]. repeat split.
Qed.

(** Once the pitch track is quantized and the file is open, the
    destination exists, whatever fails afterwards. *)
Lemma convert_mp3_to_sid_opened pitch_track os chip d values :
  comprehension (fun freq => freq_to_sid_value freq chip) pitch_track
    = Ok values ->
  open_raises os = None ->
  convert_mp3_to_sid (Ok pitch_track) os chip d =
  match store_raises os with
  | Some (e, n) => (Raise e, Some (firstn n (header_image 1 chip)))
  | None =>
      match print_raises os with
      | Some e => (Raise e, Some (header_image 1 chip))
      | None => (Ok tt, Some (header_image 1 chip))
      end
  end.
Proof.
  intros H Hopen. unfold convert_mp3_to_sid. rewrite H, Hopen.
  rewrite write_sid_header_ok by lia. reflexivity.
Qed.

Lemma convert_mp3_to_sid_runs pitch_track chip d values :
  comprehension (fun freq => freq_to_sid_value freq chip) pitch_track
    = Ok values ->
  convert_mp3_to_sid (Ok pitch_track) quiet chip d
    = (Ok tt, Some (header_image 1 chip)).
Proof.
  intros H. apply (convert_mp3_to_sid_opened _ quiet _ _ _ H). reflexivity.
Qed.

Lemma spec_sid_file_length header driver words :
  List.length (spec_sid_file header driver words) =
  (List.length header + List.length driver + 2 * List.length words)%nat.
Proof.
  unfold spec_sid_file. rewrite !List.length_app.
  assert (H : List.length (flat_map spec_word_LE words)
              = (2 * List.length words)%nat).
  { induction words as [|w ws IH]; [reflexivity|].
    cbn [flat_map spec_word_LE List.length app]. rewrite IH. lia. }
  rewrite H. lia.
Qed.

(** ** The chip registry *)

Lemma clock_of_6581 : clock_of "6581" = 985248.
Proof. reflexivity. Qed.

Lemma clock_of_8580 : clock_of "8580" = 1022730.
Proof. reflexivity. Qed.

Lemma clock_of_unknown chip :
  chip <> "6581"%string -> chip <> "8580"%string -> clock_of chip = 985248.
Proof.
  intros H1 H2. unfold clock_of, SID_CLOCKS.
  rewrite (lookup_insert_ne _ "6581"%string chip) by congruence.
  rewrite (lookup_insert_ne _ "8580"%string chip) by congruence.
  rewrite lookup_empty. reflexivity.
Qed.

(** ** Claims on the header writer *)

(** C1. The claim: every header written by [write_sid_header] is 124
    bytes long and its data-offset field equals that length.  The code
    writes 118 bytes for every song count it accepts, while the field it
    writes is always 124: the field and the length differ. *)
Theorem C1_header_is_118_bytes_and_declares_124 song_length chip :
  0 <= song_length <= 65535 ->
  exists header,
    (forall f, write_sid_header song_length chip f = (Ok tt, f ++ header)) /\
    List.length header = 118%nat /\
    declared_data_offset header = Some 124 /\
    declared_data_offset header <> Some (len header).
Proof.
  intros Hs. exists (header_image song_length chip). split.
  - intros f. apply write_sid_header_ok, Hs.
  - rewrite header_image_data_offset. unfold len.
    rewrite header_image_length. repeat split. discriminate.
Qed.

Lemma C1_witness :
  0 <= 1 <= 65535 /\
  exists header,
    (forall f, write_sid_header 1 "6581" f = (Ok tt, f ++ header)) /\
    List.length header = 118%nat /\
    declared_data_offset header = Some 124 /\
    declared_data_offset header <> Some (len header).
Proof.
  split; [lia|].
  apply (C1_header_is_118_bytes_and_declares_124 1 "6581"). lia.
Defined.

(** C2. The claim: after a successful run the file is the header, then
    the driver code, then the register words, least significant byte
    first.  The code stops after the header: whatever the pitch track
    and whatever the system, a successful run leaves the 118 header
    bytes and nothing else, which is no file of the claimed shape as
    soon as there is a driver byte or a register word to store. *)
Theorem C2_output_is_the_header_alone pitch_track os chip d d' :
  convert_mp3_to_sid (Ok pitch_track) os chip d = (Ok tt, d') ->
  d' = Some (header_image 1 chip) /\
  write_sid_header 1 chip [] = (Ok tt, header_image 1 chip) /\
  forall driver words,
    driver <> [] \/ words <> [] ->
    d' <> Some (spec_sid_file (header_image 1 chip) driver words).
Proof.
  intros Hrun. apply convert_mp3_to_sid_ok in Hrun.
  destruct Hrun as [-> _].
  split; [reflexivity|]. split.
  - rewrite write_sid_header_ok by lia. reflexivity.
  - intros driver words Hne Heq.
    apply (f_equal (fun o => from_option (@List.length byte) 0%nat o)) in Heq.
    cbn [from_option] in Heq.
    rewrite spec_sid_file_length, header_image_length in Heq.
    destruct Hne as [Hne | Hne].
    + destruct driver; [congruence | cbn [List.length] in Heq; lia].
    + destruct words; [congruence | cbn [List.length] in Heq; lia].
Qed.

Lemma C2_witness :
  convert_mp3_to_sid (Ok [hz 440]) quiet "6581" None
    = (Ok tt, Some (header_image 1 "6581")) /\
  (Some (header_image 1 "6581") = Some (header_image 1 "6581") /\
   write_sid_header 1 "6581" [] = (Ok tt, header_image 1 "6581") /\
   forall driver words,
     driver <> [] \/ words <> [] ->
     Some (header_image 1 "6581")
       <> Some (spec_sid_file (header_image 1 "6581") driver words)).
Proof.
  split; [vm_compute; reflexivity|].
  apply (C2_output_is_the_header_alone [hz 440] quiet "6581" None).
  vm_compute; reflexivity.
Defined.

(** The register word the run computed for that track and then dropped. *)
Example C2_dropped_word :
  comprehension (fun freq => freq_to_sid_value freq "6581") [hz 440]
    = Ok [7493].
Proof. vm_compute. reflexivity. Qed.




Lemma write_text_ok text data f :
  encode_ascii text = Ok data ->
  write_text text f =
  (Ok tt, f ++ firstn 32 data ++ repeat x00 (32 - List.length data)).
Proof.
  intros H. unfold write_text, bind, lift, write. rewrite H.
  unfold slice_to, zeros, len. do 4 f_equal.
  rewrite List.length_firstn.
  change (Z.to_nat 32) with 32%nat. lia.
Qed.

(** C8. Each of the three metadata strings of the header goes out as
    exactly 32 bytes: after the 22 bytes of its fixed fields,
    [write_sid_header] appends one field per text of [header_texts], in
    order, each the ASCII bytes of its text, cut after the 32nd, then
    zero bytes up to 32.  The loop body that writes them does so for
    any text that encodes: a text of 32 bytes gets no padding, one of 40
    bytes is cut to 32 with no padding, and the empty text gives 32 zero
    bytes. *)
Theorem C8_text_field_is_32_bytes song_length chip :
  0 <= song_length <= 65535 ->
  (exists head title author released,
     (forall f, write_sid_header song_length chip f
                = (Ok tt, f ++ head ++ title ++ author ++ released)) /\
     List.length head = 22%nat /\
     Forall2
       (fun text field =>
          exists data,
            encode_ascii text = Ok data /\
            (forall f, write_text text f = (Ok tt, f ++ field)) /\
            field = firstn 32 data ++ repeat x00 (32 - List.length data) /\
            List.length field = 32%nat)
       header_texts [title; author; released]) /\
  (forall text data f,
     encode_ascii text = Ok data ->
     exists field,
       write_text text f = (Ok tt, f ++ field) /\
       data = list_byte_of_string text /\
       List.length field = 32%nat /\
       field = firstn 32 data ++ repeat x00 (32 - List.length data) /\
       (List.length data = 32%nat -> field = data) /\
       (List.length data = 40%nat -> field = firstn 32 data) /\
       (data = [] -> field = repeat x00 32)).
Proof.
  intros Hs. split.
  - exists (["P"; "S"; "I"; "D"]%byte ++ BE_H 2 ++ BE_H 0x7C ++ BE_H 0x1000 ++
            BE_H 0x1000 ++ BE_H 0x1003 ++ BE_H song_length ++ BE_H 1 ++
            BE_H (header_flags chip) ++ [x00; x00]),
      (padded32 "MP3->SID Converter"), (padded32 "Maurizio Ruscio"),
      (padded32 "2025").
    split.
    { intros f. rewrite write_sid_header_ok by exact Hs.
      unfold header_image. rewrite <- !app_assoc. reflexivity. }
    split; [reflexivity|].
    unfold header_texts.
    repeat (constructor;
            [eexists; split; [reflexivity|]; split;
             [intros f; apply write_text_ok; reflexivity
             | split; reflexivity]|]).
    constructor.
  - intros text data f H.
    exists (firstn 32 data ++ repeat x00 (32 - List.length data)).
    split; [apply write_text_ok, H|]. split.
    { unfold encode_ascii in H.
      destruct (forallb _ _); congruence. }
    split.
    { rewrite List.length_app, List.length_firstn, List.repeat_length. lia. }
    split; [reflexivity|]. split; [|split].
    + intros L. rewrite L, Nat.sub_diag. cbn [repeat].
      rewrite List.app_nil_r. rewrite <- L. apply List.firstn_all.
    + intros L. rewrite L. cbn [Nat.sub repeat]. apply List.app_nil_r.
    + intros ->. reflexivity.
Qed.

(** The theorem at the default arguments, and its second part at a text
    of 32 bytes, at one of 40 bytes and at the empty text. *)
Lemma C8_witness :
  0 <= 1 <= 65535 /\
  (exists head title author released,
     (forall f, write_sid_header 1 "6581" f
                = (Ok tt, f ++ head ++ title ++ author ++ released)) /\
     List.length head = 22%nat /\
     Forall2
       (fun text field =>
          exists data,
            encode_ascii text = Ok data /\
            (forall f, write_text text f = (Ok tt, f ++ field)) /\
            field = firstn 32 data ++ repeat x00 (32 - List.length data) /\
            List.length field = 32%nat)
       header_texts [title; author; released]) /\
  write_text "0123456789abcdef0123456789abcdef" [x2a]
    = (Ok tt, [x2a] ++ list_byte_of_string "0123456789abcdef0123456789abcdef")
  /\
  write_text "0123456789abcdef0123456789abcdef01234567" [x2a]
    = (Ok tt, [x2a] ++ list_byte_of_string "0123456789abcdef0123456789abcdef")
  /\
  write_text "" [x2a] = (Ok tt, [x2a] ++ repeat x00 32).
Proof.
  assert (Hs : 0 <= 1 <= 65535) by lia.
  destruct (C8_text_field_is_32_bytes 1 "6581" Hs) as [Hwriter Hbody].
  split; [exact Hs|]. split; [exact Hwriter|].
  split; [|split].
  - destruct (Hbody "0123456789abcdef0123456789abcdef"
                (list_byte_of_string "0123456789abcdef0123456789abcdef")
                [x2a] eq_refl)
      as (field & Hw & _ & _ & _ & H32 & _ & _).
    rewrite Hw, (H32 eq_refl). reflexivity.
  - destruct (Hbody "0123456789abcdef0123456789abcdef01234567"
                (list_byte_of_string
                   "0123456789abcdef0123456789abcdef01234567")
                [x2a] eq_refl)
      as (field & Hw & _ & _ & _ & _ & H40 & _).
    rewrite Hw, (H40 eq_refl). reflexivity.
  - destruct (Hbody "" [] [x2a] eq_refl)
      as (field & Hw & _ & _ & _ & _ & _ & H0).
    rewrite Hw, (H0 eq_refl). reflexivity.
Defined.

(** The three boundary cases of C8, run through the loop body. *)
Example text_of_32_bytes :
  write_text "0123456789abcdef0123456789abcdef" []
    = (Ok tt, list_byte_of_string "0123456789abcdef0123456789abcdef").
Proof. reflexivity. Qed.

Example text_of_40_bytes :
  write_text "0123456789abcdef0123456789abcdef01234567" []
    = (Ok tt, list_byte_of_string "0123456789abcdef0123456789abcdef").
Proof. reflexivity. Qed.

Example text_empty : write_text "" [] = (Ok tt, repeat x00 32).
Proof. reflexivity. Qed.

(** C9. What [write_sid_header] appends is a function of its song
    count and chip arguments alone, and its three text fields are always
    the fixed texts, zero-filled to 32 bytes; a conversion run, whatever
    its pitch track and the system it runs on, leaves a file with those
    fields when it succeeds. *)
Theorem C9_text_fields_are_fixed song_length chip :
  0 <= song_length <= 65535 ->
  exists header,
    (forall f, write_sid_header song_length chip f = (Ok tt, f ++ header)) /\
    field_bytes 22 32 header
      = list_byte_of_string "MP3->SID Converter" ++ repeat x00 14 /\
    field_bytes 54 32 header
      = list_byte_of_string "Maurizio Ruscio" ++ repeat x00 17 /\
    field_bytes 86 32 header
      = list_byte_of_string "2025" ++ repeat x00 28 /\
    List.length header = (86 + 32)%nat /\
    (song_length = 1 ->
     forall pitch_track os d d',
       convert_mp3_to_sid (Ok pitch_track) os chip d = (Ok tt, d') ->
       d' = Some header).
Proof.
  intros Hs. exists (header_image song_length chip).
  split; [intros f; apply write_sid_header_ok, Hs|].
  repeat split.
  intros -> pitch_track os d d' Hrun.
  apply (convert_mp3_to_sid_ok _ _ _ _ _ Hrun).
Qed.

Lemma C9_witness :
  0 <= 1 <= 65535 /\
  exists header,
    (forall f, write_sid_header 1 "8580" f = (Ok tt, f ++ header)) /\
    field_bytes 22 32 header
      = list_byte_of_string "MP3->SID Converter" ++ repeat x00 14 /\
    field_bytes 54 32 header
      = list_byte_of_string "Maurizio Ruscio" ++ repeat x00 17 /\
    field_bytes 86 32 header
      = list_byte_of_string "2025" ++ repeat x00 28 /\
    List.length header = (86 + 32)%nat /\
    (1 = 1 ->
     forall pitch_track os d d',
       convert_mp3_to_sid (Ok pitch_track) os "8580" d = (Ok tt, d') ->
       d' = Some header).
Proof.
  split; [lia|].
  apply (C9_text_fields_are_fixed 1 "8580"). lia.
Defined.

(** C10. The flags field has the PAL bit (bit 0) exactly for chip
    ['6581'] and the NTSC bit (bit 1) exactly for chip ['8580']; for any
    other identifier it is 0, although the quantizer then works with the
    clock of the 6581. *)
Theorem C10_flags_follow_the_chip song_length chip :
  0 <= song_length <= 65535 ->
  exists header flags,
    (forall f, write_sid_header song_length chip f = (Ok tt, f ++ header)) /\
    field_BE16 18 header = Some flags /\
    (Z.testbit flags 0 = true <-> chip = "6581"%string) /\
    (Z.testbit flags 1 = true <-> chip = "8580"%string) /\
    (chip <> "6581"%string -> chip <> "8580"%string ->
     flags = 0 /\ clock_of chip = clock_of "6581").
Proof.
  intros Hs.
  exists (header_image song_length chip), (header_flags chip).
  split; [intros f; apply write_sid_header_ok, Hs|].
  split; [apply header_image_flags|].
  destruct (header_flags_cases chip)
    as [[-> ->] | [[-> ->] | (H1 & H2 & ->)]].
  - repeat split; try reflexivity; try discriminate; congruence.
  - repeat split; try reflexivity; try discriminate; congruence.
  - repeat split; try discriminate; try congruence.
    rewrite clock_of_unknown by assumption. reflexivity.
Qed.

Lemma C10_witness :
  0 <= 1 <= 65535 /\
  exists header flags,
    (forall f, write_sid_header 1 "unknown123" f = (Ok tt, f ++ header)) /\
    field_BE16 18 header = Some flags /\
    (Z.testbit flags 0 = true <-> "unknown123"%string = "6581"%string) /\
    (Z.testbit flags 1 = true <-> "unknown123"%string = "8580"%string) /\
    ("unknown123"%string <> "6581"%string ->
     "unknown123"%string <> "8580"%string ->
     flags = 0 /\ clock_of "unknown123" = clock_of "6581").
Proof.
  split; [lia|].
  apply (C10_flags_follow_the_chip 1 "unknown123"). lia.
Defined.

(** ** Claims on the quantizer *)

(** The floats that compare [<= 0]: both zeros, the negative finite
    ones and minus infinity; NaN does not. *)
Lemma fleb_zero_cases x :
  fleb x (S754_zero false) = true <->
  (exists s, x = S754_zero s) \/ (exists m e, x = S754_finite true m e) \/
  x = S754_infinity true.
Proof.
  split.
  - destruct x as [s | [|] | | [|] m e]; cbn; try discriminate; intros _.
    + left. eauto.
    + right. right. reflexivity.
    + right. left. eauto.
  - intros [[s ->] | [(m & e & ->) | ->]]; reflexivity.
Qed.

(** C5. A frequency at or below zero is quantized to 0, for every chip
    identifier. *)
Theorem C5_nonpositive_is_silence freq chip :
  fleb freq (S754_zero false) = true ->
  freq_to_sid_value freq chip = Ok 0.
Proof.
  intros H. unfold freq_to_sid_value. rewrite H. reflexivity.
Qed.

Lemma C5_witness :
  fleb (hz (-440)) (S754_zero false) = true /\
  freq_to_sid_value (hz (-440)) "8580" = Ok 0.
Proof.
  split; [reflexivity|].
  apply (C5_nonpositive_is_silence (hz (-440)) "8580"). reflexivity.
Defined.

(** C6. Resolving a chip identifier is a total function; an identifier
    other than the two registered ones gets the clock of ['6581'], so
    quantizing with it gives what quantizing with ['6581'] gives. *)
Theorem C6_unknown_chip_is_6581 freq chip :
  chip <> "6581"%string -> chip <> "8580"%string ->
  clock_of chip = clock_of "6581" /\
  clock_of chip = 985248 /\
  freq_to_sid_value freq chip = freq_to_sid_value freq "6581".
Proof.
  intros H1 H2.
  assert (Hc : clock_of chip = clock_of "6581")
    by (rewrite clock_of_unknown by assumption; reflexivity).
  split; [exact Hc|]. split; [apply clock_of_unknown; assumption|].
  unfold freq_to_sid_value. rewrite Hc. reflexivity.
Qed.

Lemma C6_witness :
  "unknown123"%string <> "6581"%string /\
  "unknown123"%string <> "8580"%string /\
  clock_of "unknown123" = clock_of "6581" /\
  clock_of "unknown123" = 985248 /\
  freq_to_sid_value (hz 440) "unknown123" = freq_to_sid_value (hz 440) "6581".
Proof.
  split; [discriminate|]. split; [discriminate|].
  apply (C6_unknown_chip_is_6581 (hz 440) "unknown123"); discriminate.
Defined.

(** * binary64 arithmetic

    The operations of [SpecFloat] that the quantizer uses, characterised
    on integers.  [binary_round_aux] receives a floor, an exponent and
    the location of the dropped remainder; shifting such a triple right
    keeps it the floor and location of the same quotient
    ([shr_1_located]), so that the result is the quotient rounded to
    53 bits ([binary_round_aux_round53]).  Multiplication by [2^24],
    division and [int(np.round(x))] follow, and rounding is monotone
    ([round53_mono]). *)

(** ** The number of bits of an integer *)

Lemma digits2_pos_size p : digits2_pos p = Pos.size p.
Proof. induction p as [p IH | p IH |]; cbn; rewrite ?IH; reflexivity. Qed.

Lemma Zdigits2_bounds n :
  0 < n -> 2 ^ (Zdigits2 n - 1) <= n < 2 ^ Zdigits2 n.
Proof.
  destruct n as [|p|p]; try lia. intros _. cbn [Zdigits2].
  rewrite digits2_pos_size.
  pose proof (Pos.size_gt p) as Hgt. pose proof (Pos.size_le p) as Hle.
  apply Pos2Z.pos_lt_pos in Hgt. apply Pos2Z.pos_le_pos in Hle.
  rewrite Pos2Z.inj_pow in Hgt, Hle.
  replace (Z.pos (Pos.size p)) with (Z.succ (Z.pos (Pos.size p) - 1)) in Hle by lia.
  rewrite Z.pow_succ_r in Hle by lia.
  rewrite (Pos2Z.inj_xO p) in Hle. lia.
Qed.

Lemma Zdigits2_nonneg n : 0 <= Zdigits2 n.
Proof. destruct n; cbn; lia. Qed.

Lemma Zdigits2_pos n : 0 < n -> 0 < Zdigits2 n.
Proof. destruct n; cbn; lia. Qed.

Lemma Zdigits2_unique n d :
  2 ^ (d - 1) <= n < 2 ^ d -> 0 < n -> Zdigits2 n = d.
Proof.
  intros [Hlo Hhi] Hn.
  destruct (Zdigits2_bounds n Hn) as [Blo Bhi].
  pose proof (Zdigits2_pos n Hn) as Hd.
  assert (0 < d).
  { destruct (Z_lt_le_dec 0 d) as [|Hd0]; [assumption|].
    destruct (Z.eq_dec d 0) as [->|]; [cbn in Hhi; lia|].
    rewrite (Z.pow_neg_r 2 d) in Hhi by lia. lia. }
  destruct (Z.lt_trichotomy (Zdigits2 n) d) as [L | [E | G]]; [|exact E|].
  - assert (2 ^ Zdigits2 n <= 2 ^ (d - 1)) by (apply Z.pow_le_mono_r; lia). lia.
  - assert (2 ^ d <= 2 ^ (Zdigits2 n - 1)) by (apply Z.pow_le_mono_r; lia). lia.
Qed.

Lemma Zdigits2_le n n' : 0 <= n <= n' -> Zdigits2 n <= Zdigits2 n'.
Proof.
  intros [H0 Hle].
  destruct (Z.eq_dec n 0) as [->|Hn]; [apply Zdigits2_nonneg|].
  destruct (Zdigits2_bounds n ltac:(lia)) as [Blo Bhi].
  destruct (Zdigits2_bounds n' ltac:(lia)) as [Blo' Bhi'].
  destruct (Z_lt_le_dec (Zdigits2 n') (Zdigits2 n)) as [L|]; [|assumption].
  assert (2 ^ Zdigits2 n' <= 2 ^ (Zdigits2 n - 1)) by (apply Z.pow_le_mono_r; lia).
  lia.
Qed.

Lemma Zdigits2_lt_pow n d : 0 <= n -> 0 <= d -> n < 2 ^ d -> Zdigits2 n <= d.
Proof.
  intros Hn Hd Hlt.
  destruct (Z.eq_dec n 0) as [->|Hn0]; [cbn; lia|].
  destruct (Zdigits2_bounds n ltac:(lia)) as [Blo Bhi].
  destruct (Z_lt_le_dec d (Zdigits2 n)) as [L|]; [|assumption].
  assert (2 ^ d <= 2 ^ (Zdigits2 n - 1)) by (apply Z.pow_le_mono_r; lia).
  lia.
Qed.

Lemma Zdigits2_ge_pow n d : 0 <= d -> 2 ^ d <= n -> d + 1 <= Zdigits2 n.
Proof.
  intros Hd Hle.
  assert (0 < 2 ^ d) by (apply Z.pow_pos_nonneg; lia).
  destruct (Zdigits2_bounds n ltac:(lia)) as [Blo Bhi].
  destruct (Z_lt_le_dec (Zdigits2 n) (d + 1)) as [L|]; [|assumption].
  assert (2 ^ Zdigits2 n <= 2 ^ d) by (apply Z.pow_le_mono_r; lia).
  lia.
Qed.

(* digits of a product with a power of two, and of a quotient *)
Lemma Zdigits2_mul_pow n k : 0 < n -> 0 <= k -> Zdigits2 (n * 2 ^ k) = Zdigits2 n + k.
Proof.
  intros Hn Hk.
  destruct (Zdigits2_bounds n Hn) as [Blo Bhi].
  pose proof (Zdigits2_pos n Hn).
  assert (0 < 2 ^ k) by (apply Z.pow_pos_nonneg; lia).
  apply Zdigits2_unique; [|nia].
  replace (Zdigits2 n + k - 1) with (Zdigits2 n - 1 + k) by lia.
  rewrite !Z.pow_add_r by lia. nia.
Qed.

Lemma Zdigits2_div_pow n k :
  0 <= n -> 0 <= k -> Zdigits2 (n / 2 ^ k) = Z.max (Zdigits2 n - k) 0.
Proof.
  intros Hn Hk.
  assert (Hp : 0 < 2 ^ k) by (apply Z.pow_pos_nonneg; lia).
  destruct (Z.eq_dec n 0) as [->|Hn0]; [rewrite Z.div_0_l by lia; cbn; lia|].
  destruct (Zdigits2_bounds n ltac:(lia)) as [Blo Bhi].
  pose proof (Zdigits2_pos n ltac:(lia)) as Hd.
  destruct (Z_lt_le_dec k (Zdigits2 n)) as [L|G].
  - rewrite Z.max_l by lia.
    assert (Hq : 2 ^ (Zdigits2 n - k - 1) <= n / 2 ^ k < 2 ^ (Zdigits2 n - k)).
    { split.
      - apply Z.div_le_lower_bound; [lia|].
        rewrite <- Z.pow_add_r by lia. replace (k + (Zdigits2 n - k - 1)) with (Zdigits2 n - 1) by lia. lia.
      - apply Z.div_lt_upper_bound; [lia|].
        rewrite <- Z.pow_add_r by lia. replace (k + (Zdigits2 n - k)) with (Zdigits2 n) by lia. lia. }
    apply Zdigits2_unique; [exact Hq|].
    assert (0 < 2 ^ (Zdigits2 n - k - 1)) by (apply Z.pow_pos_nonneg; lia). lia.
  - rewrite Z.max_r by lia.
    rewrite Z.div_small; [reflexivity|].
    split; [lia|]. assert (2 ^ Zdigits2 n <= 2 ^ k) by (apply Z.pow_le_mono_r; lia). lia.
Qed.

(** ** Shifting a floor and its remainder location *)

(** Case analysis on every integer test in the goal. *)
Ltac Zbool :=
  repeat match goal with
    | |- context [?a =? ?b] => destruct (Z.eqb_spec a b)
    | |- context [?a <=? ?b] => destruct (Z.leb_spec a b)
    | |- context [?a <? ?b] => destruct (Z.ltb_spec a b)
    end; cbn [negb andb orb].

Lemma located_bits N D :
  0 < D ->
  located N D =
  Build_shr_record (N / D) (D <=? 2 * (N mod D))
    (negb (N mod D =? 0) && negb (2 * (N mod D) =? D)).
Proof.
  intros HD. unfold located, loc_of_rem.
  pose proof (Z.mod_pos_bound N D HD) as Hr.
  destruct (Z.eqb_spec (N mod D) 0) as [E0 | N0].
  - rewrite E0. change (2 * 0) with 0. cbn.
    destruct (Z.leb_spec D 0); [lia | reflexivity].
  - destruct (Z.compare_spec (2 * (N mod D)) D) as [E | L | G]; cbn.
    + rewrite E, Z.leb_refl, Z.eqb_refl. reflexivity.
    + destruct (Z.leb_spec D (2 * (N mod D))); [lia|].
      destruct (Z.eqb_spec (2 * (N mod D)) D); [lia | reflexivity].
    + destruct (Z.leb_spec D (2 * (N mod D))); [|lia].
      destruct (Z.eqb_spec (2 * (N mod D)) D); [lia | reflexivity].
Qed.

Lemma shr_1_bits m r s :
  0 <= m ->
  shr_1 (Build_shr_record m r s) = Build_shr_record (m / 2) (Z.odd m) (r || s).
Proof.
  intros Hm. destruct m as [|[p|p|]|p]; try lia; try reflexivity.
  - cbn [shr_1]. f_equal.
    rewrite (Pos2Z.inj_xI p). apply (Z.div_unique _ _ _ 1); lia.
  - cbn [shr_1]. f_equal.
    rewrite (Pos2Z.inj_xO p). apply (Z.div_unique _ _ _ 0); lia.
Qed.

Lemma shr_1_located N D :
  0 <= N -> 0 < D -> shr_1 (located N D) = located N (2 * D).
Proof.
  intros HN HD.
  rewrite !located_bits by lia.
  assert (Hq : 0 <= N / D) by (apply Z.div_pos; lia).
  rewrite shr_1_bits by assumption.
  pose proof (Z.mod_pos_bound N D HD) as Hr.
  assert (Hdiv : N / (2 * D) = N / D / 2)
    by (rewrite (Z.mul_comm 2 D), Z.div_div by lia; reflexivity).
  assert (Hmod : N mod (2 * D) = N mod D + D * ((N / D) mod 2))
    by (rewrite (Z.mul_comm 2 D); apply Z.rem_mul_r; lia).
  rewrite Hdiv, Hmod.
  set (q := N / D) in *. set (r := N mod D) in *.
  assert (Hb : q mod 2 = if Z.odd q then 1 else 0).
  { rewrite Zmod_odd. reflexivity. }
  rewrite Hb.
  destruct (Z.odd q); f_equal; Zbool; try reflexivity; lia.
Qed.

Lemma iter_shr_1_located p : forall N D,
  0 <= N -> 0 < D ->
  SpecFloat.iter_pos shr_1 p (located N D) = located N (D * 2 ^ Z.pos p).
Proof.
  induction p as [p IH | p IH |]; intros N D HN HD; cbn [SpecFloat.iter_pos].
  - assert (0 < 2 ^ Z.pos p) by (apply Z.pow_pos_nonneg; lia).
    rewrite shr_1_located, IH, IH by nia. f_equal.
    rewrite (Pos2Z.inj_xI p).
    replace (2 * Z.pos p + 1) with (Z.pos p + Z.pos p + 1) by lia.
    rewrite !Z.pow_add_r by lia. change (2 ^ 1) with 2. ring.
  - assert (0 < 2 ^ Z.pos p) by (apply Z.pow_pos_nonneg; lia).
    rewrite IH, IH by nia. f_equal.
    rewrite (Pos2Z.inj_xO p).
    replace (2 * Z.pos p) with (Z.pos p + Z.pos p) by lia.
    rewrite !Z.pow_add_r by lia. ring.
  - rewrite shr_1_located by assumption. f_equal. rewrite Z.pow_1_r. ring.
Qed.

(** [shr] by a non-negative amount [k]. *)
Lemma shr_located N D e k :
  0 <= N -> 0 < D -> 0 <= k ->
  shr (located N D) e k = (located N (D * 2 ^ k), e + k).
Proof.
  intros HN HD Hk. unfold shr. destruct k as [|p|p]; try lia.
  - rewrite Z.mul_1_r, Z.add_0_r. reflexivity.
  - rewrite iter_shr_1_located by assumption. reflexivity.
Qed.

Lemma shr_m_located N D : shr_m (located N D) = N / D.
Proof. unfold located. destruct (loc_of_rem _ _) as [|[| |]]; reflexivity. Qed.

Lemma round_located N D :
  0 < D ->
  round_nearest_even (shr_m (located N D)) (loc_of_shr_record (located N D))
  = rne_div N D.
Proof.
  intros HD. rewrite shr_m_located. unfold located, loc_of_rem, rne_div.
  pose proof (Z.mod_pos_bound N D HD) as Hr.
  destruct (Z.eqb_spec (N mod D) 0) as [E0|N0].
  - rewrite E0. destruct D; try lia. reflexivity.
  - destruct (2 * (N mod D) ?= D); reflexivity.
Qed.

(** ** Rounding a quotient to the nearest integer *)

Lemma rne_div_bounds n d :
  0 < d -> n / d <= rne_div n d <= n / d + 1.
Proof.
  intros Hd. unfold rne_div.
  destruct (2 * (n mod d) ?= d); [destruct (Z.even (n / d))| |]; lia.
Qed.

Lemma rne_div_exact q d : 0 < d -> rne_div (q * d) d = q.
Proof.
  intros Hd. unfold rne_div.
  rewrite Z.mod_mul, Z.div_mul by lia.
  destruct d; try lia. reflexivity.
Qed.

Lemma rne_div_scale c n d :
  0 < c -> 0 < d -> rne_div (c * n) (c * d) = rne_div n d.
Proof.
  intros Hc Hd. unfold rne_div.
  rewrite Z.mul_mod_distr_l, Z.div_mul_cancel_l by lia.
  replace (2 * (c * (n mod d)) ?= c * d) with (2 * (n mod d) ?= d);
    [reflexivity|].
  destruct (Z.compare_spec (2 * (n mod d)) d);
    destruct (Z.compare_spec (2 * (c * (n mod d))) (c * d));
    try reflexivity; nia.
Qed.

Lemma rne_div_mono n n' d :
  0 < d -> n <= n' -> rne_div n d <= rne_div n' d.
Proof.
  intros Hd Hle.
  pose proof (Z.div_le_mono n n' d Hd Hle) as Hq.
  destruct (Z.eq_dec (n / d) (n' / d)) as [E | NE].
  - pose proof (Z.div_mod n d ltac:(lia)). pose proof (Z.div_mod n' d ltac:(lia)).
    assert (Hr : n mod d <= n' mod d) by (rewrite E in *; lia).
    unfold rne_div. rewrite <- E.
    destruct (Z.compare_spec (2 * (n mod d)) d);
      destruct (Z.compare_spec (2 * (n' mod d)) d);
      destruct (Z.even (n / d)); lia.
  - pose proof (rne_div_bounds n d Hd). pose proof (rne_div_bounds n' d Hd). lia.
Qed.

Lemma rne_div_nonneg n d : 0 <= n -> 0 < d -> 0 <= rne_div n d.
Proof.
  intros Hn Hd. pose proof (rne_div_bounds n d Hd).
  pose proof (Z.div_pos n d Hn Hd). lia.
Qed.

(** ** Rounding to 53 significant bits *)

Lemma round53_scale c P Q :
  0 < c -> 0 < Q -> round53 (c * P) (c * Q) = round53 P Q.
Proof.
  intros Hc HQ. unfold round53.
  rewrite Z.div_mul_cancel_l by lia.
  set (k := Z.max (Zdigits2 (P / Q) - 53) 0).
  assert (0 < 2 ^ k) by (apply Z.pow_pos_nonneg; lia).
  rewrite <- Z.mul_assoc, rne_div_scale by nia. reflexivity.
Qed.

Lemma round53_ratio P Q P' Q' :
  0 < Q -> 0 < Q' -> P * Q' = P' * Q -> round53 P Q = round53 P' Q'.
Proof.
  intros HQ HQ' E.
  rewrite <- (round53_scale Q' P Q), <- (round53_scale Q P' Q') by lia.
  f_equal; lia.
Qed.

Lemma round53_nonneg P Q : 0 <= P -> 0 < Q -> 0 <= round53 P Q.
Proof.
  intros HP HQ. unfold round53.
  set (k := Z.max (Zdigits2 (P / Q) - 53) 0).
  assert (0 < 2 ^ k) by (apply Z.pow_pos_nonneg; lia).
  pose proof (rne_div_nonneg P (Q * 2 ^ k) HP ltac:(nia)). nia.
Qed.

(** The rounded value stays within the binade of the quotient. *)
Lemma round53_upper P Q :
  0 <= P -> 0 < Q -> round53 P Q <= 2 ^ Zdigits2 (P / Q).
Proof.
  intros HP HQ. unfold round53.
  set (q := P / Q). set (k := Z.max (Zdigits2 q - 53) 0).
  assert (Hq : 0 <= q) by (apply Z.div_pos; lia).
  assert (Hk : 0 <= k) by lia.
  assert (H2k : 0 < 2 ^ k) by (apply Z.pow_pos_nonneg; lia).
  pose proof (rne_div_bounds P (Q * 2 ^ k) ltac:(nia)) as [_ Hb].
  rewrite <- Z.div_div in Hb by lia. fold q in Hb.
  pose proof (Zdigits2_div_pow q k Hq Hk) as Hd.
  pose proof (Zdigits2_nonneg q) as Hdq.
  assert (Hlt : q / 2 ^ k < 2 ^ (Zdigits2 q - k)).
  { apply Z.div_lt_upper_bound; [lia|].
    rewrite <- Z.pow_add_r by lia.
    replace (k + (Zdigits2 q - k)) with (Zdigits2 q) by lia.
    destruct (Z.eq_dec q 0) as [->|]; [cbn; lia|].
    apply Zdigits2_bounds. lia. }
  replace (2 ^ Zdigits2 q) with (2 ^ (Zdigits2 q - k) * 2 ^ k)
    by (rewrite <- Z.pow_add_r by lia; f_equal; lia).
  apply Z.mul_le_mono_nonneg_r; lia.
Qed.

Lemma round53_lower P Q :
  0 <= P -> 0 < Q -> 0 < P / Q -> 2 ^ (Zdigits2 (P / Q) - 1) <= round53 P Q.
Proof.
  intros HP HQ Hpos. unfold round53.
  set (q := P / Q) in *. set (k := Z.max (Zdigits2 q - 53) 0).
  assert (Hk : 0 <= k) by lia.
  assert (H2k : 0 < 2 ^ k) by (apply Z.pow_pos_nonneg; lia).
  pose proof (rne_div_bounds P (Q * 2 ^ k) ltac:(nia)) as [Hb _].
  rewrite <- Z.div_div in Hb by lia. fold q in Hb.
  pose proof (Zdigits2_pos q Hpos) as Hdq.
  destruct (Zdigits2_bounds q Hpos) as [Blo _].
  assert (Hge : 2 ^ (Zdigits2 q - 1 - k) <= q / 2 ^ k).
  { apply Z.div_le_lower_bound; [lia|].
    rewrite <- Z.pow_add_r by lia.
    replace (k + (Zdigits2 q - 1 - k)) with (Zdigits2 q - 1) by lia. exact Blo. }
  replace (2 ^ (Zdigits2 q - 1)) with (2 ^ (Zdigits2 q - 1 - k) * 2 ^ k)
    by (rewrite <- Z.pow_add_r by lia; f_equal; lia).
  apply Z.mul_le_mono_nonneg_r; lia.
Qed.

(** Rounding is monotone in the numerator. *)
Lemma round53_mono P P' Q :
  0 <= P <= P' -> 0 < Q -> round53 P Q <= round53 P' Q.
Proof.
  intros [HP Hle] HQ.
  pose proof (Z.div_le_mono P P' Q HQ Hle) as Hq.
  assert (Hq0 : 0 <= P / Q) by (apply Z.div_pos; lia).
  pose proof (Zdigits2_le (P / Q) (P' / Q) ltac:(lia)) as Hd.
  destruct (Z.eq_dec (Z.max (Zdigits2 (P / Q) - 53) 0)
                     (Z.max (Zdigits2 (P' / Q) - 53) 0)) as [E | NE].
  - unfold round53. rewrite <- E.
    set (k := Z.max (Zdigits2 (P / Q) - 53) 0).
    assert (H2k : 0 < 2 ^ k) by (apply Z.pow_pos_nonneg; lia).
    apply Z.mul_le_mono_nonneg_r; [lia|].
    apply rne_div_mono; [nia | lia].
  - assert (Hlt : Zdigits2 (P / Q) < Zdigits2 (P' / Q)) by lia.
    pose proof (round53_upper P Q HP HQ) as Hu.
    assert (Hpos' : 0 < P' / Q).
    { destruct (Z.eq_dec (P' / Q) 0) as [E0|]; [|lia].
      rewrite E0 in Hlt. cbn in Hlt. pose proof (Zdigits2_nonneg (P / Q)). lia. }
    pose proof (round53_lower P' Q ltac:(lia) HQ Hpos') as Hl.
    assert (2 ^ Zdigits2 (P / Q) <= 2 ^ (Zdigits2 (P' / Q) - 1))
      by (apply Z.pow_le_mono_r; lia).
    lia.
Qed.

(** ** Rounding in [binary_round_aux] *)

Lemma fexp_eq e : fexp prec emax e = Z.max (e - 53) (-1074).
Proof. reflexivity. Qed.

Lemma emin_eq : emin = -1074.
Proof. reflexivity. Qed.

Lemma shr_nonpos mrs e k : k <= 0 -> shr mrs e k = (mrs, e).
Proof. intros Hk. unfold shr. destruct k; try lia; reflexivity. Qed.

Lemma located_exact m : located m 1 = shr_record_of_loc m loc_Exact.
Proof. unfold located. rewrite Z.div_1_r, Z.mod_1_r. reflexivity. Qed.

(** The renormalisation after rounding: a mantissa that reached
    [2^53] loses one bit, anything else is kept. *)
Lemma renormalise s m1 E :
  -1074 <= E -> 0 <= m1 <= 2 ^ 53 -> (-1074 < E -> 2 ^ 52 <= m1) ->
  (let '(mrs, e) := shr_fexp prec emax m1 E loc_Exact in
   match shr_m mrs with
   | Z0 => S754_zero s
   | Zpos m => if e <=? emax - prec then S754_finite s m e
               else S754_infinity s
   | Zneg _ => S754_nan
   end) = float_of_ulps s (m1 * 2 ^ (E + 1074)).
Proof.
  intros HE [Hm0 Hm1] Hnorm.
  assert (H2E : 0 < 2 ^ (E + 1074)) by (apply Z.pow_pos_nonneg; lia).
  unfold shr_fexp. rewrite <- located_exact, fexp_eq.
  destruct (Z.eq_dec m1 0) as [-> | Hne].
  { cbn [Zdigits2]. rewrite shr_nonpos by lia.
    rewrite shr_m_located. reflexivity. }
  assert (Hpos : 0 < m1) by lia.
  pose proof (Zdigits2_pos m1 Hpos) as Hd0.
  assert (HdX : Zdigits2 (m1 * 2 ^ (E + 1074)) = Zdigits2 m1 + (E + 1074))
    by (apply Zdigits2_mul_pow; lia).
  unfold float_of_ulps.
  destruct (Z.leb_spec (m1 * 2 ^ (E + 1074)) 0) as [|_]; [nia|].
  rewrite HdX, emin_eq. unfold prec, emax.
  destruct (Z.eq_dec m1 (2 ^ 53)) as [-> | Hlt].
  - change (Zdigits2 (2 ^ 53)) with 54.
    rewrite shr_located by lia.
    rewrite shr_m_located.
    replace (Z.max (54 + E - 53) (-1074) - E) with 1 by lia.
    change (2 ^ 53 / (1 * 2 ^ 1)) with (Z.pos (2 ^ 52)).
    replace (Z.max (54 + (E + 1074) - 53) 0) with (E + 1074 + 1) by lia.
    replace (E + 1074 + 1 + -1074) with (E + 1) by lia.
    replace (2 ^ 53 * 2 ^ (E + 1074) / 2 ^ (E + 1074 + 1)) with (2 ^ 52).
    + reflexivity.
    + assert (0 < 2 ^ (E + 1074 + 1)) by (apply Z.pow_pos_nonneg; lia).
      replace (2 ^ 53 * 2 ^ (E + 1074)) with (2 ^ 52 * 2 ^ (E + 1074 + 1)).
      * rewrite Z.div_mul by lia. reflexivity.
      * rewrite (Z.pow_add_r 2 (E + 1074) 1) by lia.
        change (2 ^ 53) with (2 ^ 52 * 2). change (2 ^ 1) with 2. ring.
  - assert (Hd : Zdigits2 m1 <= 53) by (apply Zdigits2_lt_pow; lia).
    assert (HdE : -1074 < E -> Zdigits2 m1 = 53).
    { intros HEn. pose proof (Zdigits2_ge_pow m1 52 ltac:(lia) (Hnorm HEn)). lia. }
    rewrite shr_nonpos by lia.
    rewrite shr_m_located, Z.div_1_r.
    replace (Z.max (Zdigits2 m1 + (E + 1074) - 53) 0) with (E + 1074) by lia.
    replace (E + 1074 + -1074) with E by lia.
    rewrite Z.div_mul by lia.
    destruct m1 as [|p|p]; try lia. reflexivity.
Qed.

(** [binary_round_aux] on the floor and remainder location of [N / D]
    at exponent [ex], provided [ex] is no coarser than the target
    exponent. *)
Lemma binary_round_aux_located s N D ex :
  0 <= N -> 0 < D ->
  ex <= fexp prec emax (Zdigits2 (N / D) + ex) ->
  let E := fexp prec emax (Zdigits2 (N / D) + ex) in
  binary_round_aux prec emax s (N / D) ex (loc_of_rem (N mod D) D)
  = float_of_ulps s (rne_div N (D * 2 ^ (E - ex)) * 2 ^ (E + 1074)).
Proof.
  intros HN HD Hpre E.
  assert (Hq : 0 <= N / D) by (apply Z.div_pos; lia).
  unfold binary_round_aux.
  assert (Hfirst : shr_fexp prec emax (N / D) ex (loc_of_rem (N mod D) D)
                   = (located N (D * 2 ^ (E - ex)), E)).
  { unfold shr_fexp. fold (located N D). fold E.
    rewrite shr_located by lia. f_equal. lia. }
  rewrite Hfirst.
  assert (H2k : 0 < 2 ^ (E - ex)) by (apply Z.pow_pos_nonneg; lia).
  rewrite round_located by nia.
  assert (HE : -1074 <= E) by (unfold E; rewrite fexp_eq; lia).
  pose proof (rne_div_bounds N (D * 2 ^ (E - ex)) ltac:(nia)) as [Hlo Hhi].
  rewrite <- Z.div_div in Hlo, Hhi by lia.
  pose proof (Zdigits2_div_pow (N / D) (E - ex) Hq ltac:(lia)) as Hd.
  set (m' := N / D / 2 ^ (E - ex)) in *.
  assert (Hm' : 0 <= m') by (apply Z.div_pos; lia).
  assert (Hdm : Zdigits2 m' <= 53).
  { rewrite Hd. unfold E. rewrite fexp_eq.
    pose proof (Zdigits2_nonneg (N / D)). lia. }
  assert (Hup : m' < 2 ^ 53).
  { destruct (Z.eq_dec m' 0) as [->|]; [reflexivity|].
    destruct (Zdigits2_bounds m' ltac:(lia)) as [_ B].
    assert (2 ^ Zdigits2 m' <= 2 ^ 53) by (apply Z.pow_le_mono_r; lia). lia. }
  apply renormalise; [exact HE | lia |].
  intros HEn.
  assert (Hdm53 : Zdigits2 m' = 53).
  { rewrite Hd. unfold E in *. rewrite fexp_eq in *. lia. }
  assert (Hpos : 0 < m').
  { destruct (Z.eq_dec m' 0) as [E0|]; [|lia]. rewrite E0 in Hdm53. discriminate. }
  destruct (Zdigits2_bounds m' Hpos) as [B _]. rewrite Hdm53 in B.
  change (2 ^ (53 - 1)) with (2 ^ 52) in B. lia.
Qed.

Lemma Zdigits2_scaled_quotient N D b :
  0 <= N -> 0 < D -> 0 < N / D -> 0 <= b ->
  Zdigits2 (N * 2 ^ b / D) = Zdigits2 (N / D) + b.
Proof.
  intros HN HD Hq Hb.
  assert (H2b : 0 < 2 ^ b) by (apply Z.pow_pos_nonneg; lia).
  destruct (Zdigits2_bounds (N / D) Hq) as [Blo Bhi].
  pose proof (Zdigits2_pos (N / D) Hq) as Hd.
  pose proof (Z.div_mod N D ltac:(lia)) as Hdm.
  pose proof (Z.mod_pos_bound N D HD) as Hr.
  assert (Hlo : N / D * 2 ^ b <= N * 2 ^ b / D)
    by (apply Z.div_le_lower_bound; nia).
  assert (Hhi : N * 2 ^ b / D < (N / D + 1) * 2 ^ b)
    by (apply Z.div_lt_upper_bound; nia).
  apply Zdigits2_unique; [|nia].
  replace (Zdigits2 (N / D) + b - 1) with (Zdigits2 (N / D) - 1 + b) by lia.
  rewrite !Z.pow_add_r by lia. nia.
Qed.

(** The value [binary_round_aux] rounds, in units of [2^-1074], is
    [N / D * 2^(ex + 1074)]; its result is that value rounded to 53
    bits. *)
Lemma round53_located N D ex :
  0 <= N -> 0 < D ->
  ex <= fexp prec emax (Zdigits2 (N / D) + ex) ->
  let E := fexp prec emax (Zdigits2 (N / D) + ex) in
  round53 (N * 2 ^ Z.max (ex + 1074) 0) (D * 2 ^ Z.max (- 1074 - ex) 0)
  = rne_div N (D * 2 ^ (E - ex)) * 2 ^ (E + 1074).
Proof.
  intros HN HD Hpre E. unfold E in *. clear E.
  rewrite fexp_eq in *.
  assert (Hq : 0 <= N / D) by (apply Z.div_pos; lia).
  pose proof (Zdigits2_nonneg (N / D)) as Hdq.
  destruct (Z_le_gt_dec ex (-1074)) as [Hex | Hex].
  - rewrite (Z.max_r (ex + 1074) 0) by lia.
    rewrite (Z.max_l (-1074 - ex) 0) by lia.
    rewrite Z.pow_0_r, Z.mul_1_r. unfold round53.
    assert (H2a : 0 < 2 ^ (-1074 - ex)) by (apply Z.pow_pos_nonneg; lia).
    rewrite <- (Z.div_div N D) by lia.
    rewrite Zdigits2_div_pow by lia.
    replace (Z.max (Z.max (Zdigits2 (N / D) - (-1074 - ex)) 0 - 53) 0)
      with (Z.max (Zdigits2 (N / D) + ex - 53) (-1074) + 1074) by lia.
    rewrite <- Z.mul_assoc, <- Z.pow_add_r by lia.
    do 4 f_equal. lia.
  - rewrite (Z.max_l (ex + 1074) 0) by lia.
    rewrite (Z.max_r (-1074 - ex) 0) by lia.
    rewrite Z.pow_0_r, Z.mul_1_r. unfold round53.
    assert (Hd53 : 53 <= Zdigits2 (N / D)) by lia.
    assert (Hqpos : 0 < N / D).
    { destruct (Z.eq_dec (N / D) 0) as [E0|]; [|lia].
      rewrite E0 in Hd53. cbn in Hd53. lia. }
    rewrite Zdigits2_scaled_quotient by lia.
    replace (Z.max (Zdigits2 (N / D) + (ex + 1074) - 53) 0)
      with (Z.max (Zdigits2 (N / D) + ex - 53) (-1074) + 1074) by lia.
    f_equal.
    set (E := Z.max (Zdigits2 (N / D) + ex - 53) (-1074)).
    assert (H2b : 0 < 2 ^ (ex + 1074)) by (apply Z.pow_pos_nonneg; lia).
    assert (H2k : 0 < 2 ^ (E - ex)) by (apply Z.pow_pos_nonneg; lia).
    replace (D * 2 ^ (E + 1074)) with (2 ^ (ex + 1074) * (D * 2 ^ (E - ex))).
    + rewrite (Z.mul_comm N). apply rne_div_scale; nia.
    + replace (E + 1074) with (ex + 1074 + (E - ex)) by lia.
      rewrite (Z.pow_add_r 2 (ex + 1074)) by lia. ring.
Qed.

Lemma binary_round_aux_round53 s N D ex P Q :
  0 <= N -> 0 < D -> 0 < Q ->
  ex <= fexp prec emax (Zdigits2 (N / D) + ex) ->
  P * (D * 2 ^ Z.max (- 1074 - ex) 0) = N * 2 ^ Z.max (ex + 1074) 0 * Q ->
  binary_round_aux prec emax s (N / D) ex (loc_of_rem (N mod D) D)
  = float_of_ulps s (round53 P Q).
Proof.
  intros HN HD HQ Hpre Hratio.
  rewrite binary_round_aux_located by assumption. f_equal.
  rewrite <- round53_located by assumption.
  symmetry. apply round53_ratio; [lia | | exact Hratio].
  assert (0 < 2 ^ Z.max (-1074 - ex) 0) by (apply Z.pow_pos_nonneg; lia). nia.
Qed.

(** ** Values a binary64 can hold, in units of [2^-1074] *)

Lemma round53_fits P Q : 0 <= P -> 0 < Q -> fits53 (round53 P Q).
Proof.
  intros HP HQ. unfold round53.
  set (q := P / Q). set (k := Z.max (Zdigits2 q - 53) 0).
  exists (rne_div P (Q * 2 ^ k)), k.
  assert (Hq : 0 <= q) by (apply Z.div_pos; lia).
  assert (H2k : 0 < 2 ^ k) by (apply Z.pow_pos_nonneg; lia).
  split; [lia|]. split; [|reflexivity].
  pose proof (rne_div_bounds P (Q * 2 ^ k) ltac:(nia)) as [Hlo Hhi].
  rewrite <- Z.div_div in Hlo, Hhi by lia. fold q in Hlo, Hhi.
  assert (0 <= q / 2 ^ k) by (apply Z.div_pos; lia).
  assert (Hd : Zdigits2 (q / 2 ^ k) <= 53).
  { rewrite Zdigits2_div_pow by lia. pose proof (Zdigits2_nonneg q). lia. }
  assert (q / 2 ^ k < 2 ^ 53).
  { destruct (Z.eq_dec (q / 2 ^ k) 0) as [->|]; [reflexivity|].
    destruct (Zdigits2_bounds (q / 2 ^ k) ltac:(lia)) as [_ B].
    assert (2 ^ Zdigits2 (q / 2 ^ k) <= 2 ^ 53) by (apply Z.pow_le_mono_r; lia).
    lia. }
  lia.
Qed.

Lemma fits53_split X :
  fits53 X -> 0 < X ->
  let k := Z.max (Zdigits2 X - 53) 0 in
  X / 2 ^ k * 2 ^ k = X /\ 0 < X / 2 ^ k /\ Zdigits2 (X / 2 ^ k) <= 53.
Proof.
  intros (r & j & Hj & [Hr0 Hr1] & ->) Hpos k.
  assert (H2j : 0 < 2 ^ j) by (apply Z.pow_pos_nonneg; lia).
  assert (Hr : 0 < r) by nia.
  assert (HdX : Zdigits2 (r * 2 ^ j) = Zdigits2 r + j)
    by (apply Zdigits2_mul_pow; lia).
  assert (Hkv : k = Z.max (Zdigits2 r + j - 53) 0)
    by (unfold k; rewrite HdX; reflexivity).
  clearbody k.
  assert (Hk0 : 0 <= k) by lia.
  assert (H2k : 0 < 2 ^ k) by (apply Z.pow_pos_nonneg; lia).
  assert (Hdiv : r * 2 ^ j / 2 ^ k * 2 ^ k = r * 2 ^ j).
  { destruct (Z.eq_dec r (2 ^ 53)) as [Hr53 | Hne].
    - assert (Hd54 : Zdigits2 r = 54) by (rewrite Hr53; reflexivity).
      assert (Hk : k = j + 1) by lia.
      rewrite Hr53. change (2 ^ 53) with (2 ^ 52 * 2 ^ 1).
      rewrite <- Z.mul_assoc, <- (Z.pow_add_r 2 1 j) by lia.
      replace (1 + j) with k by lia.
      rewrite Z.div_mul by lia. reflexivity.
    - assert (Zdigits2 r <= 53) by (apply Zdigits2_lt_pow; lia).
      assert (Hjk : 2 ^ j = 2 ^ (j - k) * 2 ^ k)
        by (rewrite <- Z.pow_add_r by lia; f_equal; lia).
      rewrite Hjk, Z.mul_assoc, Z.div_mul by lia. reflexivity. }
  split; [exact Hdiv|]. split.
  - apply Z.div_str_pos. split; [lia|].
    destruct (Z.le_gt_cases (2 ^ k) (r * 2 ^ j)) as [|Hc]; [assumption|].
    rewrite Z.div_small in Hdiv by lia. lia.
  - rewrite Zdigits2_div_pow by lia. rewrite HdX. lia.
Qed.

Lemma ulps_float_of_ulps s X m e :
  fits53 X -> float_of_ulps s X = S754_finite s m e ->
  ulps (S754_finite s m e) = X /\ Zdigits2 (Z.pos m) <= 53 /\ -1074 <= e.
Proof.
  intros Hfit. unfold float_of_ulps.
  destruct (Z.leb_spec X 0) as [|Hpos]; [discriminate|].
  rewrite emin_eq. unfold prec.
  set (k := Z.max (Zdigits2 X - 53) 0).
  destruct (k + -1074 <=? emax - 53); [|discriminate].
  intros [= <- <-].
  destruct (fits53_split X Hfit Hpos) as (Hdiv & Hq & Hd). fold k in Hdiv, Hq, Hd.
  cbn [ulps]. rewrite Z2Pos.id by assumption.
  replace (k + -1074 + 1074) with k by lia.
  repeat split; [exact Hdiv | exact Hd | lia].
Qed.

Lemma float_of_ulps_cases s X :
  0 <= X ->
  float_of_ulps s X = S754_zero s \/
  float_of_ulps s X = S754_infinity s \/
  exists m e, float_of_ulps s X = S754_finite s m e.
Proof.
  intros _. unfold float_of_ulps.
  destruct (X <=? 0); [left; reflexivity|].
  destruct (_ <=? _); [right; right; eauto | right; left; reflexivity].
Qed.

(** ** Exact cases *)

Lemma round53_exact m j :
  0 < m -> Zdigits2 m <= 53 -> 0 <= j -> round53 (m * 2 ^ j) 1 = m * 2 ^ j.
Proof.
  intros Hm Hd Hj. unfold round53. rewrite Z.div_1_r.
  rewrite Zdigits2_mul_pow by lia.
  set (k := Z.max (Zdigits2 m + j - 53) 0).
  assert (Hk : 0 <= k <= j) by lia.
  assert (H2k : 0 < 2 ^ k) by (apply Z.pow_pos_nonneg; lia).
  assert (Hjk : 2 ^ j = 2 ^ (j - k) * 2 ^ k)
    by (rewrite <- Z.pow_add_r by lia; f_equal; lia).
  rewrite Z.mul_1_l, Hjk, Z.mul_assoc.
  rewrite rne_div_exact by lia. reflexivity.
Qed.

Lemma binary_round_aux_exact s N ex P Q :
  0 <= N -> 0 < Q ->
  ex <= fexp prec emax (Zdigits2 N + ex) ->
  P * 2 ^ Z.max (- 1074 - ex) 0 = N * 2 ^ Z.max (ex + 1074) 0 * Q ->
  binary_round_aux prec emax s N ex loc_Exact = float_of_ulps s (round53 P Q).
Proof.
  intros HN HQ Hpre Hratio.
  pose proof (binary_round_aux_round53 s N 1 ex P Q HN ltac:(lia) HQ) as H.
  rewrite Z.div_1_r, Z.mod_1_r, Z.mul_1_l in H.
  apply H; assumption.
Qed.

Lemma iter_xO p d : Z.pos (Pos.iter xO p d) = Z.pos p * 2 ^ Z.pos d.
Proof.
  induction d as [|d IH] using Pos.peano_ind.
  - cbn [Pos.iter]. rewrite (Pos2Z.inj_xO p), Z.pow_1_r. lia.
  - rewrite Pos.iter_succ, (Pos2Z.inj_xO (Pos.iter xO p d)), IH.
    rewrite Pos2Z.inj_succ, Z.pow_succ_r by lia. ring.
Qed.

Lemma shl_align_le p e e' :
  e' <= e ->
  exists mz, shl_align p e e' = (mz, e') /\ Z.pos mz = Z.pos p * 2 ^ (e - e').
Proof.
  intros Hle. unfold shl_align.
  destruct (e' - e) as [|d|d] eqn:Hd; try lia.
  - assert (e' = e) by lia. subst e'. exists p. split; [reflexivity|].
    rewrite Z.sub_diag. cbn. lia.
  - exists (Pos.iter xO p d). split; [reflexivity|].
    rewrite iter_xO. f_equal. f_equal. lia.
Qed.

(** [float(n)] is exact for a positive [n] of at most 53 bits. *)
Lemma float_of_int_exact n :
  0 < n -> Zdigits2 n <= 53 ->
  float_of_int n = float_of_ulps false (n * 2 ^ 1074).
Proof.
  intros Hn Hd. unfold float_of_int, binary_normalize.
  destruct n as [|p|p]; try lia.
  unfold binary_round.
  pose proof (Zdigits2_pos (Z.pos p) Hn) as Hd0.
  change (Z.pos (digits2_pos p)) with (Zdigits2 (Z.pos p)).
  rewrite fexp_eq, Z.add_0_r.
  replace (Z.max (Zdigits2 (Z.pos p) - 53) (-1074))
    with (Zdigits2 (Z.pos p) - 53) by lia.
  destruct (shl_align_le p 0 (Zdigits2 (Z.pos p) - 53) ltac:(lia))
    as (mz & -> & Hmz).
  replace (0 - (Zdigits2 (Z.pos p) - 53)) with (53 - Zdigits2 (Z.pos p))
    in Hmz by lia.
  assert (Hdz : Zdigits2 (Z.pos mz) = 53).
  { rewrite Hmz, Zdigits2_mul_pow by lia. lia. }
  rewrite <- (round53_exact (Z.pos p) 1074) by lia.
  apply binary_round_aux_exact; try lia.
  - rewrite Hdz, fexp_eq. lia.
  - rewrite Z.max_r, Z.max_l by lia.
    rewrite Hmz, Z.pow_0_r, !Z.mul_1_r, <- Z.mul_assoc, <- Z.pow_add_r by lia.
    do 2 f_equal. lia.
Qed.

(** ** Multiplication by [2^24] *)

Lemma fmul_2p24 s m e :
  -1074 <= e -> Zdigits2 (Z.pos m) <= 53 ->
  fmul (S754_finite s m e) (float_of_int (Z.shiftl 1 24))
  = float_of_ulps s (ulps (S754_finite s m e) * 2 ^ 24).
Proof.
  intros He Hd.
  change (float_of_int (Z.shiftl 1 24)) with (S754_finite false (2 ^ 52) (-28)).
  unfold fmul. cbn [SFmul]. rewrite xorb_false_r.
  rewrite (Pos2Z.inj_mul m (2 ^ 52)).
  change (Z.pos (2 ^ 52)) with (2 ^ 52).
  cbn [ulps].
  rewrite <- Z.mul_assoc, <- Z.pow_add_r by lia.
  rewrite <- (round53_exact (Z.pos m) (e + 1074 + 24)) by lia.
  pose proof (Zdigits2_pos (Z.pos m) ltac:(lia)) as Hd0.
  apply binary_round_aux_exact; try lia.
  - rewrite Zdigits2_mul_pow, fexp_eq by lia. lia.
  - rewrite Z.mul_1_r, <- !Z.mul_assoc, <- !Z.pow_add_r by lia.
    do 2 f_equal. lia.
Qed.

(** ** Division *)

Lemma div_eucl_eq a b : Z.div_eucl a b = (a / b, a mod b).
Proof. unfold Z.div, Z.modulo. destruct (Z.div_eucl a b). reflexivity. Qed.

Lemma new_location_eq d r :
  0 < d -> 0 <= r < d -> new_location d r = loc_of_rem r d.
Proof.
  intros Hd Hr. unfold new_location, new_location_even, new_location_odd,
    loc_of_rem.
  destruct (Z.even d) eqn:Ev; [reflexivity|].
  destruct (r =? 0); [reflexivity|]. f_equal.
  assert (Hodd : Z.odd d = true) by (rewrite <- Z.negb_even, Ev; reflexivity).
  apply Z.odd_spec in Hodd. destruct Hodd as [h Hh].
  destruct (Z.compare_spec (2 * r + 1) d);
    destruct (Z.compare_spec (2 * r) d); try reflexivity; lia.
Qed.

Lemma shift_match m s :
  0 <= s ->
  match s with
  | 0 => m
  | Z.pos _ => Z.shiftl m s
  | Z.neg _ => 0
  end = m * 2 ^ s.
Proof.
  intros Hs. destruct s as [|p|p]; try lia.
  apply Z.shiftl_mul_pow2. lia.
Qed.

Lemma fdiv_finite sx mx ex sy my ey :
  -1074 <= ex -> -1074 <= ey ->
  fdiv (S754_finite sx mx ex) (S754_finite sy my ey)
  = float_of_ulps (xorb sx sy)
      (round53 (ulps (S754_finite sx mx ex) * 2 ^ 1074)
               (ulps (S754_finite sy my ey))).
Proof.
  intros Hex Hey. unfold fdiv. cbn [SFdiv ulps].
  unfold SFdiv_core_binary. cbn [Zdigits2]. rewrite fexp_eq.
  change (Z.pos (digits2_pos mx)) with (Zdigits2 (Z.pos mx)).
  change (Z.pos (digits2_pos my)) with (Zdigits2 (Z.pos my)).
  set (d1 := Zdigits2 (Z.pos mx)). set (d2 := Zdigits2 (Z.pos my)).
  destruct (Zdigits2_bounds (Z.pos mx) ltac:(lia)) as [B1lo B1hi].
  destruct (Zdigits2_bounds (Z.pos my) ltac:(lia)) as [B2lo B2hi].
  pose proof (Zdigits2_pos (Z.pos mx) ltac:(lia)) as Hd1.
  pose proof (Zdigits2_pos (Z.pos my) ltac:(lia)) as Hd2.
  fold d1 in B1lo, B1hi, Hd1. fold d2 in B2lo, B2hi, Hd2.
  set (g := d1 + ex - (d2 + ey)).
  set (e' := Z.min (Z.max (g - 53) (-1074)) (ex - ey)).
  set (sh := ex - ey - e').
  assert (Hsh : 0 <= sh) by (unfold sh, e'; lia).
  assert (Hm' : match sh with
                | 0 => Z.pos mx
                | Z.pos _ => Z.shiftl (Z.pos mx) sh
                | Z.neg _ => 0
                end = Z.pos mx * 2 ^ sh).
  { apply shift_match, Hsh. }
  rewrite Hm', div_eucl_eq.
  assert (H2s : 0 < 2 ^ sh) by (apply Z.pow_pos_nonneg; lia).
  rewrite new_location_eq by (try apply Z.mod_pos_bound; lia).
  set (N := Z.pos mx * 2 ^ sh).
  assert (HN : 0 <= N) by (unfold N; nia).
  apply binary_round_aux_round53; try assumption; try lia.
  - (* the quotient is fine enough for the target exponent *)
    rewrite fexp_eq.
    destruct (Z_le_gt_dec e' (-1074)) as [|Hgt]; [lia|].
    assert (Hge : e' <= g - 53) by (unfold e' in *; lia).
    assert (Hq : 2 ^ (g - 1 - e') <= N / Z.pos my).
    { apply Z.div_le_lower_bound; [lia|].
      assert (Hle : Z.pos my * 2 ^ (g - 1 - e') <= 2 ^ d2 * 2 ^ (g - 1 - e')).
      { apply Z.mul_le_mono_nonneg_r; [apply Z.pow_nonneg|]; lia. }
      rewrite <- Z.pow_add_r in Hle by lia.
      replace (d2 + (g - 1 - e')) with (d1 - 1 + sh) in Hle by (unfold g, sh; lia).
      rewrite Z.pow_add_r in Hle by lia. unfold N. nia. }
    pose proof (Zdigits2_ge_pow (N / Z.pos my) (g - 1 - e') ltac:(lia) Hq). lia.
  - (* both sides denote the same rational *)
    unfold N.
    destruct (Z_le_gt_dec e' (-1074)) as [Hle | Hgt].
    + rewrite (Z.max_l (-1074 - e') 0), (Z.max_r (e' + 1074) 0) by lia.
      rewrite Z.pow_0_r, Z.mul_1_r.
      replace (Z.pos mx * 2 ^ (ex + 1074) * 2 ^ 1074 * (Z.pos my * 2 ^ (-1074 - e')))
        with (Z.pos mx * Z.pos my *
              (2 ^ (ex + 1074) * 2 ^ 1074 * 2 ^ (-1074 - e'))) by ring.
      replace (Z.pos mx * 2 ^ sh * (Z.pos my * 2 ^ (ey + 1074)))
        with (Z.pos mx * Z.pos my * (2 ^ sh * 2 ^ (ey + 1074))) by ring.
      f_equal. rewrite <- !Z.pow_add_r by lia. f_equal. unfold sh. lia.
    + rewrite (Z.max_r (-1074 - e') 0), (Z.max_l (e' + 1074) 0) by lia.
      rewrite Z.pow_0_r, Z.mul_1_r.
      replace (Z.pos mx * 2 ^ (ex + 1074) * 2 ^ 1074 * Z.pos my)
        with (Z.pos mx * Z.pos my * (2 ^ (ex + 1074) * 2 ^ 1074)) by ring.
      replace (Z.pos mx * 2 ^ sh * 2 ^ (e' + 1074) * (Z.pos my * 2 ^ (ey + 1074)))
        with (Z.pos mx * Z.pos my *
              (2 ^ sh * 2 ^ (e' + 1074) * 2 ^ (ey + 1074))) by ring.
      f_equal. rewrite <- !Z.pow_add_r by lia. f_equal. unfold sh. lia.
Qed.

(** ** Well-formed floats and their order *)

Lemma wf_finite s m e :
  wf (S754_finite s m e) = true ->
  -1074 <= e <= 971 /\ Zdigits2 (Z.pos m) <= 53 /\
  (-1074 < e -> Zdigits2 (Z.pos m) = 53).
Proof.
  unfold wf, valid_binary, bounded, canonical_mantissa.
  rewrite fexp_eq. intros H. apply andb_true_iff in H. destruct H as [Hc Hb].
  apply Z.eqb_eq in Hc. apply Z.leb_le in Hb.
  change (Z.pos (digits2_pos m)) with (Zdigits2 (Z.pos m)) in Hc.
  change (emax - prec) with 971 in Hb. lia.
Qed.

Lemma ulps_pos s m e : -1074 <= e -> 0 < ulps (S754_finite s m e).
Proof.
  intros He. cbn [ulps].
  assert (0 < 2 ^ (e + 1074)) by (apply Z.pow_pos_nonneg; lia). nia.
Qed.

Lemma ulps_fits s m e :
  -1074 <= e -> Zdigits2 (Z.pos m) <= 53 -> forall j, 0 <= j ->
  fits53 (ulps (S754_finite s m e) * 2 ^ j).
Proof.
  intros He Hd j Hj. exists (Z.pos m), (e + 1074 + j).
  split; [lia|]. split.
  - destruct (Zdigits2_bounds (Z.pos m) ltac:(lia)) as [_ B].
    assert (2 ^ Zdigits2 (Z.pos m) <= 2 ^ 53) by (apply Z.pow_le_mono_r; lia).
    lia.
  - cbn [ulps]. rewrite <- Z.mul_assoc, <- Z.pow_add_r by lia. reflexivity.
Qed.

(** Between well-formed positive floats, the comparison of the code is
    the comparison of the values. *)
Lemma ulps_exponent_lt m1 e1 m2 e2 :
  wf (S754_finite false m1 e1) = true -> wf (S754_finite false m2 e2) = true ->
  e1 < e2 ->
  ulps (S754_finite false m1 e1) < ulps (S754_finite false m2 e2).
Proof.
  intros W1 W2 Hlt.
  destruct (wf_finite _ _ _ W1) as (He1 & Hd1 & _).
  destruct (wf_finite _ _ _ W2) as (He2 & _ & Hn2).
  specialize (Hn2 ltac:(lia)).
  destruct (Zdigits2_bounds (Z.pos m1) ltac:(lia)) as [_ B1].
  destruct (Zdigits2_bounds (Z.pos m2) ltac:(lia)) as [B2 _].
  rewrite Hn2 in B2. change (2 ^ (53 - 1)) with (2 ^ 52) in B2.
  assert (H53 : 2 ^ Zdigits2 (Z.pos m1) <= 2 ^ 53)
    by (apply Z.pow_le_mono_r; lia).
  cbn [ulps].
  assert (P1 : 0 < 2 ^ (e1 + 1074)) by (apply Z.pow_pos_nonneg; lia).
  assert (Hstep : 2 ^ (e2 + 1074) = 2 ^ (e2 - e1 - 1) * (2 * 2 ^ (e1 + 1074))).
  { rewrite <- (Z.pow_succ_r 2 (e1 + 1074)), <- Z.pow_add_r by lia.
    f_equal. lia. }
  assert (P2 : 0 < 2 ^ (e2 - e1 - 1)) by (apply Z.pow_pos_nonneg; lia).
  rewrite Hstep.
  change (2 ^ 53) with (2 * 2 ^ 52) in H53. nia.
Qed.

Lemma fleb_ulps m1 e1 m2 e2 :
  wf (S754_finite false m1 e1) = true -> wf (S754_finite false m2 e2) = true ->
  fleb (S754_finite false m1 e1) (S754_finite false m2 e2) = true ->
  ulps (S754_finite false m1 e1) <= ulps (S754_finite false m2 e2).
Proof.
  intros W1 W2. unfold fleb, SFleb. cbn [SFcompare].
  destruct (Z.compare_spec e1 e2) as [-> | Hlt | Hgt].
  - change (Pos.compare_cont Eq m1 m2) with (Pos.compare m1 m2).
    destruct (wf_finite _ _ _ W2) as (He2 & _ & _).
    assert (0 < 2 ^ (e2 + 1074)) by (apply Z.pow_pos_nonneg; lia).
    destruct (Pos.compare_spec m1 m2) as [-> | L | G]; intros Hc;
      try discriminate; cbn [ulps]; [lia | nia].
  - intros _. pose proof (ulps_exponent_lt _ _ _ _ W1 W2 Hlt). lia.
  - discriminate.
Qed.

Lemma fltb_ulps m1 e1 m2 e2 :
  wf (S754_finite false m1 e1) = true -> wf (S754_finite false m2 e2) = true ->
  fltb (S754_finite false m1 e1) (S754_finite false m2 e2) = true ->
  ulps (S754_finite false m1 e1) < ulps (S754_finite false m2 e2).
Proof.
  intros W1 W2. unfold fltb, SFltb. cbn [SFcompare].
  destruct (Z.compare_spec e1 e2) as [-> | Hlt | Hgt].
  - change (Pos.compare_cont Eq m1 m2) with (Pos.compare m1 m2).
    destruct (wf_finite _ _ _ W2) as (He2 & _ & _).
    assert (0 < 2 ^ (e2 + 1074)) by (apply Z.pow_pos_nonneg; lia).
    destruct (Pos.compare_spec m1 m2) as [-> | L | G]; intros Hc;
      try discriminate; cbn [ulps]; nia.
  - intros _. apply (ulps_exponent_lt _ _ _ _ W1 W2 Hlt).
  - discriminate.
Qed.

(** A float above zero is a positive finite one or plus infinity. *)
Lemma fltb_zero_cases x :
  fltb (S754_zero false) x = true ->
  x = S754_infinity false \/ exists m e, x = S754_finite false m e.
Proof.
  destruct x as [s | [|] | | [|] m e]; cbn; try discriminate; intros _.
  - left. reflexivity.
  - right. eauto.
Qed.

Lemma fltb_zero_not_fleb x :
  fltb (S754_zero false) x = true -> fleb x (S754_zero false) = false.
Proof.
  destruct x as [s | [|] | | [|] m e]; cbn; try discriminate; reflexivity.
Qed.

(** ** Results of [float_of_ulps] *)

Lemma float_of_ulps_zero s : float_of_ulps s 0 = S754_zero s.
Proof. reflexivity. Qed.

Lemma float_of_ulps_finite s X :
  0 < X -> Zdigits2 X <= 2098 ->
  exists m e, float_of_ulps s X = S754_finite s m e.
Proof.
  intros HX Hd. unfold float_of_ulps.
  destruct (Z.leb_spec X 0); [lia|].
  rewrite emin_eq. unfold prec, emax.
  destruct (Z.leb_spec (Z.max (Zdigits2 X - 53) 0 + -1074) (1024 - 53));
    [eauto | lia].
Qed.

Lemma float_of_ulps_infinite s X :
  0 <= X -> 2098 < Zdigits2 X -> float_of_ulps s X = S754_infinity s.
Proof.
  intros HX Hd. unfold float_of_ulps.
  destruct (Z.leb_spec X 0) as [Hle|_].
  { assert (X = 0) by lia. subst X. cbn in Hd. lia. }
  rewrite emin_eq. unfold prec, emax.
  destruct (Z.leb_spec (Z.max (Zdigits2 X - 53) 0 + -1074) (1024 - 53));
    [lia | reflexivity].
Qed.

(** ** [int(np.round(x))] *)

Lemma int_float_of_ulps_integer n :
  0 < n -> Zdigits2 n <= 53 -> int (float_of_ulps false (n * 2 ^ 1074)) = Ok n.
Proof.
  intros Hn Hd. unfold float_of_ulps.
  pose proof (Zdigits2_pos n Hn) as Hd0.
  destruct (Z.leb_spec (n * 2 ^ 1074) 0) as [Hle|_]; [lia|].
  rewrite Zdigits2_mul_pow, emin_eq by lia. unfold prec, emax.
  replace (Z.max (Zdigits2 n + 1074 - 53) 0) with (Zdigits2 n + 1021) by lia.
  destruct (Z.leb_spec (Zdigits2 n + 1021 + -1074) (1024 - 53)); [|lia].
  assert (Hsplit : 2 ^ 1074 = 2 ^ (53 - Zdigits2 n) * 2 ^ (Zdigits2 n + 1021))
    by (rewrite <- Z.pow_add_r by lia; f_equal; lia).
  assert (P1 : 0 < 2 ^ (Zdigits2 n + 1021)) by (apply Z.pow_pos_nonneg; lia).
  assert (P2 : 0 < 2 ^ (53 - Zdigits2 n)) by (apply Z.pow_pos_nonneg; lia).
  rewrite Hsplit, Z.mul_assoc, Z.div_mul by lia.
  cbn [int cond_Zopp]. rewrite Z2Pos.id by nia. f_equal.
  destruct (Z.leb_spec 0 (Zdigits2 n + 1021 + -1074)) as [H0|H0].
  - replace (Zdigits2 n + 1021 + -1074) with 0 by lia.
    replace (53 - Zdigits2 n) with 0 by lia.
    rewrite !Z.pow_0_r. lia.
  - replace (- (Zdigits2 n + 1021 + -1074)) with (53 - Zdigits2 n) by lia.
    apply Z.div_mul. lia.
Qed.

(** The integer [int(np.round(x))] of a positive finite [x]: the
    integer nearest to its value, ties to even. *)
Lemma int_np_round m e :
  -1074 <= e -> Zdigits2 (Z.pos m) <= 53 ->
  int (np_round (S754_finite false m e))
  = Ok (rne_div (ulps (S754_finite false m e)) (2 ^ 1074)).
Proof.
  intros He Hd. cbn [np_round ulps].
  destruct (Z.leb_spec 0 e) as [H0|H0].
  - cbn [int cond_Zopp]. destruct (Z.leb_spec 0 e); [|lia]. f_equal.
    rewrite (Z.pow_add_r 2 e 1074), Z.mul_assoc by lia.
    rewrite rne_div_exact by reflexivity. reflexivity.
  - cbn [cond_Zopp]. fold (float_of_int (rne_div (Z.pos m) (2 ^ (- e)))).
    assert (P : 0 < 2 ^ (- e)) by (apply Z.pow_pos_nonneg; lia).
    assert (Pe : 0 < 2 ^ (e + 1074)) by (apply Z.pow_pos_nonneg; lia).
    assert (Hn : rne_div (Z.pos m * 2 ^ (e + 1074)) (2 ^ 1074)
                 = rne_div (Z.pos m) (2 ^ (- e))).
    { replace (2 ^ 1074) with (2 ^ (e + 1074) * 2 ^ (- e))
        by (rewrite <- Z.pow_add_r by lia; f_equal; lia).
      rewrite (Z.mul_comm (Z.pos m)). apply rne_div_scale; lia. }
    rewrite Hn.
    set (n := rne_div (Z.pos m) (2 ^ (- e))).
    pose proof (rne_div_bounds (Z.pos m) (2 ^ (- e)) P) as [Hlo Hhi].
    fold n in Hlo, Hhi.
    assert (Hq : 0 <= Z.pos m / 2 ^ (- e)) by (apply Z.div_pos; lia).
    destruct (Z.eq_dec n 0) as [-> | Hne]; [reflexivity|].
    assert (Hm53 : Z.pos m < 2 ^ 53).
    { destruct (Zdigits2_bounds (Z.pos m) ltac:(lia)) as [_ B].
      assert (2 ^ Zdigits2 (Z.pos m) <= 2 ^ 53)
        by (apply Z.pow_le_mono_r; lia). lia. }
    assert (Hhalf : Z.pos m / 2 ^ (- e) < 2 ^ 52).
    { apply Z.div_lt_upper_bound; [lia|].
      assert (2 ^ 1 <= 2 ^ (- e)) by (apply Z.pow_le_mono_r; lia).
      change (2 ^ 1) with 2 in *. change (2 ^ 53) with (2 * 2 ^ 52) in Hm53.
      nia. }
    assert (Hdn : Zdigits2 n <= 53).
    { apply Zdigits2_lt_pow; [lia | lia |].
      change (2 ^ 53) with (2 * 2 ^ 52). lia. }
    rewrite float_of_int_exact by lia.
    apply int_float_of_ulps_integer; lia.
Qed.

(** ** The quantizer on integers *)

Lemma clock_of_cases chip : clock_of chip = 985248 \/ clock_of chip = 1022730.
Proof.
  destruct (String.eqb_spec chip "6581") as [-> | H1]; [left; reflexivity|].
  destruct (String.eqb_spec chip "8580") as [-> | H2]; [right; reflexivity|].
  left. apply clock_of_unknown; assumption.
Qed.

(** The two clocks as floats: exact, with 53-bit mantissas. *)
Lemma float_of_clock c :
  c = 985248 \/ c = 1022730 ->
  exists m e,
    float_of_int c = S754_finite false m e /\ -1074 <= e /\
    ulps (S754_finite false m e) = c * 2 ^ 1074.
Proof.
  intros [-> | ->].
  - exists 8463215876898816%positive, (-33).
    split; [reflexivity|]. split; [lia | vm_compute; reflexivity].
  - exists 8785183805276160%positive, (-33).
    split; [reflexivity|]. split; [lia | vm_compute; reflexivity].
Qed.

(** Half of each clock as a float. *)
Lemma float_of_half_clock c :
  c = 985248 \/ c = 1022730 ->
  exists m e,
    hz (c / 2) = S754_finite false m e /\
    wf (S754_finite false m e) = true /\
    ulps (S754_finite false m e) = c / 2 * 2 ^ 1074.
Proof.
  intros [-> | ->].
  - exists 8463215876898816%positive, (-34).
    split; [reflexivity|]. split; [reflexivity | vm_compute; reflexivity].
  - exists 8785183805276160%positive, (-34).
    split; [reflexivity|]. split; [reflexivity | vm_compute; reflexivity].
Qed.

(** The quotient [freq * 2^24 / clock] in binary64, for a positive
    finite [freq]: the product is exact unless it overflows, and the
    quotient is the exact quotient rounded to 53 bits. *)
Lemma scaled_finite m e c :
  wf (S754_finite false m e) = true ->
  c = 985248 \/ c = 1022730 ->
  Zdigits2 (ulps (S754_finite false m e) * 2 ^ 24) <= 2098 ->
  scaled (S754_finite false m e) c
  = float_of_ulps false (round53 (ulps (S754_finite false m e) * 2 ^ 24) c).
Proof.
  intros W Hc Hd. destruct (wf_finite _ _ _ W) as (He & Hdm & _).
  unfold scaled. rewrite fmul_2p24 by lia.
  set (X := ulps (S754_finite false m e) * 2 ^ 24) in *.
  assert (HX : 0 < X).
  { unfold X. pose proof (ulps_pos false m e ltac:(lia)). lia. }
  destruct (float_of_ulps_finite false X HX Hd) as (m' & e' & Heq).
  rewrite Heq.
  destruct (ulps_float_of_ulps false X m' e'
              (ulps_fits false m e ltac:(lia) Hdm 24 ltac:(lia)) Heq)
    as (HuX & _ & He').
  destruct (float_of_clock c Hc) as (mc & ec & -> & Hec & Huc).
  rewrite fdiv_finite by lia. rewrite HuX, Huc. cbn [xorb]. f_equal.
  rewrite (Z.mul_comm X), (Z.mul_comm c).
  apply round53_scale; lia.
Qed.

Lemma scaled_overflow m e c :
  wf (S754_finite false m e) = true ->
  c = 985248 \/ c = 1022730 ->
  2098 < Zdigits2 (ulps (S754_finite false m e) * 2 ^ 24) ->
  scaled (S754_finite false m e) c = S754_infinity false.
Proof.
  intros W Hc Hd. destruct (wf_finite _ _ _ W) as (He & Hdm & _).
  unfold scaled. rewrite fmul_2p24 by lia.
  pose proof (ulps_pos false m e ltac:(lia)).
  rewrite float_of_ulps_infinite by lia.
  destruct (float_of_clock c Hc) as (mc & ec & -> & _ & _). reflexivity.
Qed.

(** Dividing by a clock cannot overflow. *)
Lemma round53_clock_digits X c :
  0 <= X -> Zdigits2 X <= 2098 -> 2 <= c ->
  Zdigits2 (round53 X c) <= 2098.
Proof.
  intros HX Hd Hc.
  pose proof (round53_upper X c HX ltac:(lia)) as Hu.
  pose proof (round53_nonneg X c HX ltac:(lia)) as H0.
  assert (Hq : 0 <= X / c) by (apply Z.div_pos; lia).
  assert (Hle : X / c <= X / 2 ^ 1)
    by (apply Z.div_le_compat_l; [lia | change (2 ^ 1) with 2; lia]).
  pose proof (Zdigits2_le (X / c) (X / 2 ^ 1) ltac:(lia)) as Hdq.
  rewrite Zdigits2_div_pow in Hdq by lia.
  assert (Hpow : 2 ^ Zdigits2 (X / c) <= 2 ^ 2097)
    by (apply Z.pow_le_mono_r; lia).
  apply Zdigits2_lt_pow; [lia | lia |].
  assert (2 ^ 2097 < 2 ^ 2098) by (apply Z.pow_lt_mono_r; lia). lia.
Qed.

(** What [int(np.round(freq * (1 << 24) / clock))] is, on integers. *)
Lemma rounded_quotient m e c :
  wf (S754_finite false m e) = true ->
  c = 985248 \/ c = 1022730 ->
  Zdigits2 (ulps (S754_finite false m e) * 2 ^ 24) <= 2098 ->
  int (np_round (scaled (S754_finite false m e) c))
  = Ok (rne_div (round53 (ulps (S754_finite false m e) * 2 ^ 24) c)
          (2 ^ 1074)).
Proof.
  intros W Hc Hd. rewrite scaled_finite by assumption.
  destruct (wf_finite _ _ _ W) as (He & Hdm & _).
  set (X := ulps (S754_finite false m e) * 2 ^ 24) in *.
  assert (HX : 0 < X).
  { unfold X. pose proof (ulps_pos false m e ltac:(lia)). lia. }
  assert (Hc2 : 2 <= c) by lia.
  pose proof (round53_nonneg X c ltac:(lia) ltac:(lia)) as HY.
  pose proof (round53_clock_digits X c ltac:(lia) Hd Hc2) as HdY.
  pose proof (round53_fits X c ltac:(lia) ltac:(lia)) as HfY.
  set (Y := round53 X c) in *.
  destruct (Z.eq_dec Y 0) as [-> | Hne]; [reflexivity|].
  destruct (float_of_ulps_finite false Y ltac:(lia) HdY) as (m' & e' & Heq).
  rewrite Heq.
  destruct (ulps_float_of_ulps false Y m' e' HfY Heq) as (HuY & Hdm' & He').
  rewrite int_np_round by assumption. rewrite HuY. reflexivity.
Qed.

Lemma rounded_quotient_overflow m e c :
  wf (S754_finite false m e) = true ->
  c = 985248 \/ c = 1022730 ->
  2098 < Zdigits2 (ulps (S754_finite false m e) * 2 ^ 24) ->
  int (np_round (scaled (S754_finite false m e) c)) = Raise OverflowError.
Proof.
  intros W Hc Hd. rewrite scaled_overflow by assumption. reflexivity.
Qed.

(** Masking a value that fits 16 bits changes nothing; in general the
    mask is the remainder modulo [2^16]. *)
Lemma land_FFFF n : Z.land n 0xFFFF = n mod 65536.
Proof. apply (Z.land_ones n 16). lia. Qed.

(** The rounded quotient grows with the frequency. *)
Lemma rounded_quotient_mono X1 X2 c :
  0 <= X1 <= X2 -> 0 < c ->
  rne_div (round53 X1 c) (2 ^ 1074) <= rne_div (round53 X2 c) (2 ^ 1074).
Proof.
  intros HX Hc. apply rne_div_mono; [reflexivity|].
  apply round53_mono; assumption.
Qed.

(** ** Claims on the rounding of the quantizer *)

Lemma freq_to_sid_value_pos m e chip :
  freq_to_sid_value (S754_finite false m e) chip
  = rbind (int (np_round (scaled (S754_finite false m e) (clock_of chip))))
          (fun n => Ok (Z.land n 0xFFFF)).
Proof. reflexivity. Qed.

(** C4, the claim as stated fails: [2^1000] is a positive binary64, its
    product with [2^24] overflows to infinity, and [int] of the rounded
    infinity raises instead of wrapping. *)
Lemma C4_counterexample :
  wf (S754_finite false 4503599627370496 948) = true /\
  freq_to_sid_value (S754_finite false 4503599627370496 948) "6581"
    = Raise OverflowError /\
  ~ claim_quantize_wraps (S754_finite false 4503599627370496 948) "6581".
Proof.
  split; [reflexivity|]. split; [vm_compute; reflexivity|].
  intros H. destruct (H eq_refl) as (n & Hn & _).
  vm_compute in Hn. discriminate.
Qed.

(** C4, amended.  For every well-formed frequency above zero whose
    product with [2^24] is finite in binary64, and every chip
    identifier, the quantizer returns the integer nearest (ties to even)
    to the binary64 quotient [freq * 2^24 / clock], masked to its low 16
    bits: a value in [0, 65535], equal to that integer modulo [65536].
    The binary64 quotient is the exact one rounded to 53 bits. *)
Theorem C4_quantize_rounds_and_wraps freq chip :
  wf freq = true ->
  fltb (S754_zero false) freq = true ->
  is_finite (fmul freq (float_of_int (Z.shiftl 1 24))) = true ->
  exists n,
    int (np_round (scaled freq (clock_of chip))) = Ok n /\
    n = rne_div (round53 (ulps freq * 2 ^ 24) (clock_of chip)) (2 ^ 1074) /\
    0 <= n /\
    freq_to_sid_value freq chip = Ok (Z.land n 0xFFFF) /\
    Z.land n 0xFFFF = n mod 65536 /\
    0 <= Z.land n 0xFFFF <= 65535.
Proof.
  intros W Hpos Hfin.
  destruct (fltb_zero_cases freq Hpos) as [-> | (m & e & ->)];
    [discriminate Hfin|].
  destruct (wf_finite _ _ _ W) as (He & Hdm & _).
  pose proof (ulps_pos false m e ltac:(lia)) as HK.
  assert (Hd : Zdigits2 (ulps (S754_finite false m e) * 2 ^ 24) <= 2098).
  { destruct (Z_le_gt_dec
                (Zdigits2 (ulps (S754_finite false m e) * 2 ^ 24)) 2098)
      as [|Hgt]; [assumption|].
    rewrite fmul_2p24, float_of_ulps_infinite in Hfin by lia.
    discriminate Hfin. }
  pose proof (clock_of_cases chip) as Hc.
  exists (rne_div (round53 (ulps (S754_finite false m e) * 2 ^ 24)
                    (clock_of chip)) (2 ^ 1074)).
  assert (Hn0 : 0 <= rne_div (round53 (ulps (S754_finite false m e) * 2 ^ 24)
                                (clock_of chip)) (2 ^ 1074)).
  { apply rne_div_nonneg; [|reflexivity]. apply round53_nonneg; lia. }
  split; [apply rounded_quotient; assumption|].
  split; [reflexivity|]. split; [exact Hn0|]. split.
  - rewrite freq_to_sid_value_pos, rounded_quotient by assumption. reflexivity.
  - rewrite land_FFFF. split; [reflexivity|].
    pose proof (Z.mod_pos_bound
                  (rne_div (round53 (ulps (S754_finite false m e) * 2 ^ 24)
                              (clock_of chip)) (2 ^ 1074)) 65536 ltac:(lia)).
    lia.
Qed.

Lemma C4_witness :
  wf (hz 440) = true /\
  fltb (S754_zero false) (hz 440) = true /\
  is_finite (fmul (hz 440) (float_of_int (Z.shiftl 1 24))) = true /\
  exists n,
    int (np_round (scaled (hz 440) (clock_of "6581"))) = Ok n /\
    n = rne_div (round53 (ulps (hz 440) * 2 ^ 24) (clock_of "6581"))
          (2 ^ 1074) /\
    0 <= n /\
    freq_to_sid_value (hz 440) "6581" = Ok (Z.land n 0xFFFF) /\
    Z.land n 0xFFFF = n mod 65536 /\
    0 <= Z.land n 0xFFFF <= 65535.
Proof.
  split; [reflexivity|]. split; [reflexivity|]. split; [reflexivity|].
  apply (C4_quantize_rounds_and_wraps (hz 440) "6581"); reflexivity.
Defined.

(** The regression value of the specification, 440 Hz on the PAL clock:
    the code gives 7493, which is also the exact quotient
    [440 * 2^24 / 985248] rounded to the nearest integer. *)
Example golden_440_PAL :
  freq_to_sid_value (hz 440) "6581" = Ok 7493 /\
  Z.land (rne_div (440 * 16777216) 985248) 0xFFFF = 7493.
Proof. split; vm_compute; reflexivity. Qed.

(** Above 65535 the value wraps: 4000 Hz rounds to 68114 and is stored
    as [68114 - 65536]. *)
Example wrap_4000_PAL :
  int (np_round (scaled (hz 4000) (clock_of "6581"))) = Ok 68114 /\
  freq_to_sid_value (hz 4000) "6581" = Ok 2578.
Proof. split; vm_compute; reflexivity. Qed.

(** When the product with [2^24] overflows, the quantizer raises. *)
Lemma quantize_overflow m e chip :
  wf (S754_finite false m e) = true ->
  is_finite (fmul (S754_finite false m e) (float_of_int (Z.shiftl 1 24)))
    = false ->
  freq_to_sid_value (S754_finite false m e) chip = Raise OverflowError.
Proof.
  intros W Hinf. destruct (wf_finite _ _ _ W) as (He & Hdm & _).
  pose proof (ulps_pos false m e ltac:(lia)) as HK.
  rewrite freq_to_sid_value_pos.
  destruct (Z_le_gt_dec
              (Zdigits2 (ulps (S754_finite false m e) * 2 ^ 24)) 2098)
    as [Hle|Hgt].
  - rewrite fmul_2p24 in Hinf by lia.
    destruct (float_of_ulps_finite false
                (ulps (S754_finite false m e) * 2 ^ 24) ltac:(lia) Hle)
      as (m' & e' & Heq).
    rewrite Heq in Hinf. discriminate Hinf.
  - rewrite rounded_quotient_overflow
      by first [apply clock_of_cases | assumption | lia].
    reflexivity.
Qed.

(** ** Monotonicity *)

Lemma between_pos_finite m1 e1 y mh eh :
  fleb (S754_finite false m1 e1) y = true ->
  fltb y (S754_finite false mh eh) = true ->
  exists m2 e2, y = S754_finite false m2 e2.
Proof.
  destruct y as [s | [|] | | [|] m2 e2]; cbn; try discriminate; eauto.
Qed.

(** C7. For every chip identifier and all well-formed frequencies
    [0 < f1 <= f2 < clock / 2], if the rounded quotient of [f2] has not
    passed 65535 then both are quantized without error and the value of
    [f1] is at most the value of [f2]. *)
Theorem C7_monotone_below_wrap f1 f2 chip n2 :
  wf f1 = true -> wf f2 = true ->
  fltb (S754_zero false) f1 = true ->
  fleb f1 f2 = true ->
  fltb f2 (hz (clock_of chip / 2)) = true ->
  int (np_round (scaled f2 (clock_of chip))) = Ok n2 ->
  n2 <= 65535 ->
  exists v1 v2,
    freq_to_sid_value f1 chip = Ok v1 /\
    freq_to_sid_value f2 chip = Ok v2 /\
    v1 <= v2.
Proof.
  intros W1 W2 Hpos Hle Hlt Hn2 Hwrap.
  pose proof (clock_of_cases chip) as Hc.
  set (c := clock_of chip) in *.
  destruct (float_of_half_clock c Hc) as (mh & eh & Hh & Wh & Hu).
  rewrite Hh in Hlt.
  destruct (fltb_zero_cases f1 Hpos) as [-> | (m1 & e1 & ->)].
  { destruct f2 as [s | [|] | | [|] m2 e2]; discriminate. }
  destruct (between_pos_finite _ _ _ _ _ Hle Hlt) as (m2 & e2 & ->).
  pose proof (fleb_ulps _ _ _ _ W1 W2 Hle) as HK.
  pose proof (fltb_ulps _ _ _ _ W2 Wh Hlt) as HK2. rewrite Hu in HK2.
  destruct (wf_finite _ _ _ W1) as (He1 & _ & _).
  pose proof (ulps_pos false m1 e1 ltac:(lia)) as HK1.
  set (K1 := ulps (S754_finite false m1 e1)) in *.
  set (K2 := ulps (S754_finite false m2 e2)) in *.
  assert (Hhalf : c / 2 < 2 ^ 19) by (destruct Hc as [-> | ->]; reflexivity).
  assert (HX2 : K2 * 2 ^ 24 < 2 ^ 1117).
  { change (2 ^ 1117) with (2 ^ 19 * 2 ^ 1074 * 2 ^ 24).
    assert (0 < 2 ^ 1074) by reflexivity. nia. }
  assert (Hd2 : Zdigits2 (K2 * 2 ^ 24) <= 2098).
  { pose proof (Zdigits2_lt_pow (K2 * 2 ^ 24) 1117 ltac:(lia) ltac:(lia) HX2).
    lia. }
  assert (Hd1 : Zdigits2 (K1 * 2 ^ 24) <= 2098).
  { pose proof (Zdigits2_le (K1 * 2 ^ 24) (K2 * 2 ^ 24) ltac:(lia)). lia. }
  rewrite rounded_quotient in Hn2 by assumption. fold K2 in Hn2.
  injection Hn2 as Hn2.
  assert (Hmono : rne_div (round53 (K1 * 2 ^ 24) c) (2 ^ 1074) <= n2).
  { rewrite <- Hn2. apply rounded_quotient_mono; lia. }
  assert (Hn1 : 0 <= rne_div (round53 (K1 * 2 ^ 24) c) (2 ^ 1074)).
  { apply rne_div_nonneg; [|reflexivity]. apply round53_nonneg; lia. }
  exists (rne_div (round53 (K1 * 2 ^ 24) c) (2 ^ 1074)), n2.
  rewrite !freq_to_sid_value_pos. fold c.
  rewrite !rounded_quotient by assumption. fold K1 K2. rewrite Hn2.
  cbn [rbind]. rewrite !land_FFFF, !Z.mod_small by lia.
  repeat split. exact Hmono.
Qed.

Lemma C7_witness :
  wf (hz 220) = true /\ wf (hz 440) = true /\
  fltb (S754_zero false) (hz 220) = true /\
  fleb (hz 220) (hz 440) = true /\
  fltb (hz 440) (hz (clock_of "6581" / 2)) = true /\
  int (np_round (scaled (hz 440) (clock_of "6581"))) = Ok 7493 /\
  7493 <= 65535 /\
  exists v1 v2,
    freq_to_sid_value (hz 220) "6581" = Ok v1 /\
    freq_to_sid_value (hz 440) "6581" = Ok v2 /\
    v1 <= v2.
Proof.
  split; [reflexivity|]. split; [reflexivity|]. split; [reflexivity|].
  split; [reflexivity|]. split; [reflexivity|].
  split; [vm_compute; reflexivity|]. split; [lia|].
  apply (C7_monotone_below_wrap (hz 220) (hz 440) "6581" 7493);
    first [reflexivity | (vm_compute; reflexivity) | lia].
Defined.

(** Past the wrap point the order is lost: 4000 Hz is above 440 Hz and
    gets the smaller word. *)
Example no_longer_monotone_past_wrap :
  fleb (hz 440) (hz 4000) = true /\
  freq_to_sid_value (hz 440) "6581" = Ok 7493 /\
  freq_to_sid_value (hz 4000) "6581" = Ok 2578.
Proof. repeat split; vm_compute; reflexivity. Qed.

(** * Further properties of the code *)

(** ** The quantizer: range and errors *)

Lemma word_range freq chip v :
  freq_to_sid_value freq chip = Ok v -> 0 <= v <= 65535.
Proof.
  unfold freq_to_sid_value.
  destruct (fleb freq (S754_zero false)); [intros [= <-]; lia|].
  destruct (int (np_round (scaled freq (clock_of chip)))) as [n | e];
    [|discriminate].
  cbn [rbind]. intros [= <-]. rewrite land_FFFF.
  pose proof (Z.mod_pos_bound n 65536 ltac:(lia)). lia.
Qed.

(** X1. Whatever the frequency and the chip identifier, a word the
    quantizer returns lies in [0, 65535]. *)
Theorem X1_word_fits_16_bits freq chip v :
  freq_to_sid_value freq chip = Ok v -> 0 <= v <= 65535.
Proof. apply word_range. Qed.

Lemma X1_witness :
  freq_to_sid_value (hz 4000) "8580" = Ok 81 /\ 0 <= 81 <= 65535.
Proof.
  split; [vm_compute; reflexivity|].
  apply (X1_word_fits_16_bits (hz 4000) "8580" 81).
  vm_compute; reflexivity.
Defined.

Lemma product_finite_iff m e :
  wf (S754_finite false m e) = true ->
  is_finite (fmul (S754_finite false m e) (float_of_int (Z.shiftl 1 24)))
    = true <->
  Zdigits2 (ulps (S754_finite false m e) * 2 ^ 24) <= 2098.
Proof.
  intros W. destruct (wf_finite _ _ _ W) as (He & Hdm & _).
  pose proof (ulps_pos false m e ltac:(lia)) as HK.
  rewrite fmul_2p24 by lia. split.
  - intros Hfin.
    destruct (Z_le_gt_dec
                (Zdigits2 (ulps (S754_finite false m e) * 2 ^ 24)) 2098)
      as [|Hgt]; [assumption|].
    rewrite float_of_ulps_infinite in Hfin by lia. discriminate Hfin.
  - intros Hle.
    destruct (float_of_ulps_finite false
                (ulps (S754_finite false m e) * 2 ^ 24) ltac:(lia) Hle)
      as (m' & e' & ->). reflexivity.
Qed.

Lemma quantize_finite m e chip :
  wf (S754_finite false m e) = true ->
  Zdigits2 (ulps (S754_finite false m e) * 2 ^ 24) <= 2098 ->
  freq_to_sid_value (S754_finite false m e) chip
  = Ok (Z.land
          (rne_div (round53 (ulps (S754_finite false m e) * 2 ^ 24)
                      (clock_of chip)) (2 ^ 1074)) 0xFFFF).
Proof.
  intros W Hd. rewrite freq_to_sid_value_pos.
  rewrite rounded_quotient by (try apply clock_of_cases; assumption).
  reflexivity.
Qed.

Lemma quantize_infinity chip :
  freq_to_sid_value (S754_infinity false) chip = Raise OverflowError.
Proof.
  unfold freq_to_sid_value, scaled. cbn [fleb SFleb SFcompare].
  destruct (float_of_clock (clock_of chip) (clock_of_cases chip))
    as (mc & ec & -> & _ & _).
  reflexivity.
Qed.

Lemma quantize_nan chip :
  freq_to_sid_value S754_nan chip = Raise ValueError.
Proof.
  unfold freq_to_sid_value, scaled. cbn [fleb SFleb SFcompare].
  destruct (float_of_clock (clock_of chip) (clock_of_cases chip))
    as (mc & ec & -> & _ & _).
  reflexivity.
Qed.

(** X2. On a well-formed float the quantizer raises in two cases only:
    [ValueError] exactly for NaN, and [OverflowError] exactly for a
    frequency above zero whose product with [2^24] is not finite. *)
Theorem X2_quantizer_errors freq chip :
  wf freq = true ->
  (freq_to_sid_value freq chip = Raise ValueError <-> freq = S754_nan) /\
  (freq_to_sid_value freq chip = Raise OverflowError <->
   fltb (S754_zero false) freq = true /\
   is_finite (fmul freq (float_of_int (Z.shiftl 1 24))) = false) /\
  (forall e, freq_to_sid_value freq chip = Raise e ->
             e = ValueError \/ e = OverflowError).
Proof.
  intros W.
  destruct freq as [s | [|] | | [|] m e].
  - (* zero *)
    repeat split; try discriminate; intros []; discriminate.
  - (* minus infinity *)
    repeat split; try discriminate; intros []; discriminate.
  - (* plus infinity *)
    rewrite quantize_infinity.
    repeat split; try discriminate; try reflexivity.
    intros e [= <-]. right. reflexivity.
  - (* NaN *)
    rewrite quantize_nan.
    repeat split; try discriminate; try reflexivity.
    + intros []; discriminate.
    + intros e [= <-]. left. reflexivity.
  - (* negative *)
    repeat split; try discriminate; intros []; discriminate.
  - (* positive *)
    pose proof (product_finite_iff m e W) as Hiff.
    destruct (Z_le_gt_dec
                (Zdigits2 (ulps (S754_finite false m e) * 2 ^ 24)) 2098)
      as [Hle | Hgt].
    + rewrite (quantize_finite m e chip W Hle).
      apply Hiff in Hle. rewrite Hle.
      repeat split; try discriminate; intros []; discriminate.
    + assert (Hinf : is_finite (fmul (S754_finite false m e)
                                  (float_of_int (Z.shiftl 1 24))) = false).
      { apply not_true_is_false. intros E. apply Hiff in E. lia. }
      rewrite (quantize_overflow m e chip W Hinf), Hinf.
      repeat split; try discriminate; try reflexivity.
      intros e0 [= <-]. right. reflexivity.
Qed.

Lemma X2_witness :
  wf (S754_finite false 4503599627370496 948) = true /\
  (freq_to_sid_value (S754_finite false 4503599627370496 948) "8580"
     = Raise ValueError <->
   S754_finite false 4503599627370496 948 = S754_nan) /\
  (freq_to_sid_value (S754_finite false 4503599627370496 948) "8580"
     = Raise OverflowError <->
   fltb (S754_zero false) (S754_finite false 4503599627370496 948) = true /\
   is_finite (fmul (S754_finite false 4503599627370496 948)
                (float_of_int (Z.shiftl 1 24))) = false) /\
  (forall e,
     freq_to_sid_value (S754_finite false 4503599627370496 948) "8580"
       = Raise e ->
     e = ValueError \/ e = OverflowError).
Proof.
  split; [reflexivity|].
  apply (X2_quantizer_errors (S754_finite false 4503599627370496 948) "8580").
  reflexivity.
Defined.

(** ** The quantizer inside the band of the pitch tracker *)

Lemma between_finite a b y c d :
  fleb (S754_finite false a b) y = true ->
  fleb y (S754_finite false c d) = true ->
  exists m e, y = S754_finite false m e.
Proof.
  destruct y as [s | [|] | | [|] m2 e2]; cbn; try discriminate; eauto.
Qed.

Lemma band_edges c :
  c = 985248 \/ c = 1022730 ->
  820 <= rne_div (round53 (50 * 2 ^ 1074 * 2 ^ 24) c) (2 ^ 1074) /\
  rne_div (round53 (2000 * 2 ^ 1074 * 2 ^ 24) c) (2 ^ 1074) <= 34057.
Proof.
  intros [-> | ->].
  - assert (E1 : rne_div (round53 (50 * 2 ^ 1074 * 2 ^ 24) 985248) (2 ^ 1074)
                 = 851) by (vm_compute; reflexivity).
    assert (E2 : rne_div (round53 (2000 * 2 ^ 1074 * 2 ^ 24) 985248)
                   (2 ^ 1074) = 34057) by (vm_compute; reflexivity).
    rewrite E1, E2. lia.
  - assert (E1 : rne_div (round53 (50 * 2 ^ 1074 * 2 ^ 24) 1022730) (2 ^ 1074)
                 = 820) by (vm_compute; reflexivity).
    assert (E2 : rne_div (round53 (2000 * 2 ^ 1074 * 2 ^ 24) 1022730)
                   (2 ^ 1074) = 32809) by (vm_compute; reflexivity).
    rewrite E1, E2. lia.
Qed.

(** X3. A well-formed frequency inside the default band of the pitch
    tracker, 50 Hz to 2000 Hz, is quantized without error for every chip
    identifier, to a word between 820 and 34057: never silence, never
    wrapped. *)
Theorem X3_band_is_quantized_unwrapped freq chip :
  wf freq = true ->
  fleb (hz 50) freq = true ->
  fleb freq (hz 2000) = true ->
  exists v, freq_to_sid_value freq chip = Ok v /\ 820 <= v <= 34057.
Proof.
  intros W Hlo Hhi.
  change (hz 50) with (S754_finite false 7036874417766400 (-47)) in Hlo.
  change (hz 2000) with (S754_finite false 8796093022208000 (-42)) in Hhi.
  destruct (between_finite _ _ _ _ _ Hlo Hhi) as (m & e & ->).
  assert (W50 : wf (S754_finite false 7036874417766400 (-47)) = true)
    by reflexivity.
  assert (W2000 : wf (S754_finite false 8796093022208000 (-42)) = true)
    by reflexivity.
  pose proof (fleb_ulps _ _ _ _ W50 W Hlo) as HKlo.
  pose proof (fleb_ulps _ _ _ _ W W2000 Hhi) as HKhi.
  assert (U50 : ulps (S754_finite false 7036874417766400 (-47))
                = 50 * 2 ^ 1074) by (vm_compute; reflexivity).
  assert (U2000 : ulps (S754_finite false 8796093022208000 (-42))
                  = 2000 * 2 ^ 1074) by (vm_compute; reflexivity).
  rewrite U50 in HKlo. rewrite U2000 in HKhi.
  set (K := ulps (S754_finite false m e)) in *.
  pose proof (clock_of_cases chip) as Hc.
  assert (P1074 : 0 < 2 ^ 1074) by reflexivity.
  assert (P24 : 0 < 2 ^ 24) by reflexivity.
  assert (HX : K * 2 ^ 24 < 2 ^ 1109).
  { change (2 ^ 1109) with (2048 * 2 ^ 1074 * 2 ^ 24). nia. }
  assert (Hd : Zdigits2 (K * 2 ^ 24) <= 2098).
  { pose proof (Zdigits2_lt_pow (K * 2 ^ 24) 1109 ltac:(nia) ltac:(lia) HX).
    lia. }
  destruct (band_edges (clock_of chip) Hc) as [Elo Ehi].
  assert (Hc0 : 0 < clock_of chip) by lia.
  pose proof (rounded_quotient_mono (50 * 2 ^ 1074 * 2 ^ 24) (K * 2 ^ 24)
                (clock_of chip) ltac:(nia) Hc0) as Mlo.
  pose proof (rounded_quotient_mono (K * 2 ^ 24) (2000 * 2 ^ 1074 * 2 ^ 24)
                (clock_of chip) ltac:(nia) Hc0) as Mhi.
  rewrite (quantize_finite m e chip W Hd). fold K.
  set (n := rne_div (round53 (K * 2 ^ 24) (clock_of chip)) (2 ^ 1074)) in *.
  exists (Z.land n 0xFFFF). split; [reflexivity|].
  rewrite land_FFFF, Z.mod_small by lia. lia.
Qed.

Lemma X3_witness :
  wf (hz 440) = true /\
  fleb (hz 50) (hz 440) = true /\
  fleb (hz 440) (hz 2000) = true /\
  exists v, freq_to_sid_value (hz 440) "8580" = Ok v /\ 820 <= v <= 34057.
Proof.
  split; [reflexivity|]. split; [reflexivity|]. split; [reflexivity|].
  apply (X3_band_is_quantized_unwrapped (hz 440) "8580"); reflexivity.
Defined.

(** ** The two clocks compared *)

Lemma round53_antitone P Q Q' :
  0 <= P -> 0 < Q <= Q' -> round53 P Q' <= round53 P Q.
Proof.
  intros HP HQ.
  rewrite <- (round53_scale Q P Q'), <- (round53_scale Q' P Q) by lia.
  rewrite (Z.mul_comm Q' Q). apply round53_mono; nia.
Qed.

(** X4. For one and the same frequency above zero whose word on the
    6581 clock has not wrapped, the word on the 8580 clock is not
    larger. *)
Theorem X4_8580_word_not_above_6581 freq n :
  wf freq = true ->
  fltb (S754_zero false) freq = true ->
  int (np_round (scaled freq (clock_of "6581"))) = Ok n ->
  n <= 65535 ->
  exists v1 v2,
    freq_to_sid_value freq "6581" = Ok v1 /\
    freq_to_sid_value freq "8580" = Ok v2 /\
    v2 <= v1.
Proof.
  intros W Hpos Hn Hwrap.
  destruct (fltb_zero_cases freq Hpos) as [-> | (m & e & ->)].
  { vm_compute in Hn. discriminate Hn. }
  destruct (wf_finite _ _ _ W) as (He & _ & _).
  pose proof (ulps_pos false m e ltac:(lia)) as HK.
  assert (Hd : Zdigits2 (ulps (S754_finite false m e) * 2 ^ 24) <= 2098).
  { destruct (Z_le_gt_dec
                (Zdigits2 (ulps (S754_finite false m e) * 2 ^ 24)) 2098)
      as [|Hgt]; [assumption|].
    rewrite rounded_quotient_overflow in Hn
      by first [apply clock_of_cases | assumption | lia].
    discriminate Hn. }
  rewrite rounded_quotient in Hn
    by first [apply clock_of_cases | assumption].
  injection Hn as Hn.
  rewrite !(quantize_finite m e _ W Hd).
  set (X := ulps (S754_finite false m e) * 2 ^ 24) in *.
  change (clock_of "6581") with 985248 in *.
  change (clock_of "8580") with 1022730.
  change (rne_div (round53 X 985248) (2 ^ 1074) = n) in Hn.
  assert (Hanti : round53 X 1022730 <= round53 X 985248)
    by (apply round53_antitone; lia).
  assert (Hmono : rne_div (round53 X 1022730) (2 ^ 1074)
                  <= rne_div (round53 X 985248) (2 ^ 1074))
    by (apply rne_div_mono; [reflexivity | exact Hanti]).
  assert (H0 : 0 <= rne_div (round53 X 1022730) (2 ^ 1074)).
  { apply rne_div_nonneg; [|reflexivity]. apply round53_nonneg; lia. }
  eexists. eexists. split; [reflexivity|]. split; [reflexivity|].
  rewrite !land_FFFF, !Z.mod_small by lia. exact Hmono.
Qed.

Lemma X4_witness :
  wf (hz 440) = true /\
  fltb (S754_zero false) (hz 440) = true /\
  int (np_round (scaled (hz 440) (clock_of "6581"))) = Ok 7493 /\
  7493 <= 65535 /\
  exists v1 v2,
    freq_to_sid_value (hz 440) "6581" = Ok v1 /\
    freq_to_sid_value (hz 440) "8580" = Ok v2 /\
    v2 <= v1.
Proof.
  split; [reflexivity|]. split; [reflexivity|].
  split; [vm_compute; reflexivity|]. split; [lia|].
  apply (X4_8580_word_not_above_6581 (hz 440) 7493);
    first [reflexivity | (vm_compute; reflexivity) | lia].
Defined.

(** ** The header writer: reading back, failing, appending *)

(** X5. With a song count that fits 16 bits, every fixed field of the
    header reads back as written: the magic, version 2, load and init
    address [0x1000], play address [0x1003], the song count itself,
    start song 1 and a zero reserved word. *)
Theorem X5_header_fields_read_back song_length chip f :
  0 <= song_length <= 65535 ->
  exists header,
    write_sid_header song_length chip f = (Ok tt, f ++ header) /\
    field_bytes 0 4 header = ["P"; "S"; "I"; "D"]%byte /\
    field_BE16 4 header = Some 2 /\
    field_BE16 8 header = Some 0x1000 /\
    field_BE16 10 header = Some 0x1000 /\
    field_BE16 12 header = Some 0x1003 /\
    field_BE16 14 header = Some song_length /\
    field_BE16 16 header = Some 1 /\
    field_BE16 20 header = Some 0.
Proof.
  intros Hs. exists (header_image song_length chip).
  split; [apply write_sid_header_ok, Hs|].
  repeat (split; [reflexivity|]).
  split; [apply header_image_songs, Hs|].
  split; reflexivity.
Qed.

Lemma X5_witness :
  0 <= 513 <= 65535 /\
  exists header,
    write_sid_header 513 "8580" [] = (Ok tt, [] ++ header) /\
    field_bytes 0 4 header = ["P"; "S"; "I"; "D"]%byte /\
    field_BE16 4 header = Some 2 /\
    field_BE16 8 header = Some 0x1000 /\
    field_BE16 10 header = Some 0x1000 /\
    field_BE16 12 header = Some 0x1003 /\
    field_BE16 14 header = Some 513 /\
    field_BE16 16 header = Some 1 /\
    field_BE16 20 header = Some 0.
Proof.
  split; [lia|].
  apply (X5_header_fields_read_back 513 "8580" []). lia.
Defined.

(** X6. A song count outside [0, 65535] makes the writer raise
    [struct.error], and only after 14 bytes have gone out: the file
    keeps a truncated header that starts with the magic and declares a
    data offset of 124. *)
Theorem X6_bad_song_count_leaves_14_bytes song_length chip f :
  ~ 0 <= song_length <= 65535 ->
  exists written,
    write_sid_header song_length chip f = (Raise StructError, f ++ written) /\
    List.length written = 14%nat /\
    field_bytes 0 4 written = ["P"; "S"; "I"; "D"]%byte /\
    declared_data_offset written = Some 124.
Proof.
  intros Hs.
  exists (["P"; "S"; "I"; "D"]%byte ++ BE_H 2 ++ BE_H 0x7C ++ BE_H 0x1000 ++
          BE_H 0x1000 ++ BE_H 0x1003).
  split; [apply write_sid_header_raise, Hs|].
  repeat split.
Qed.

Lemma X6_witness :
  ~ 0 <= 65536 <= 65535 /\
  exists written,
    write_sid_header 65536 "6581" [] = (Raise StructError, [] ++ written) /\
    List.length written = 14%nat /\
    field_bytes 0 4 written = ["P"; "S"; "I"; "D"]%byte /\
    declared_data_offset written = Some 124.
Proof.
  split; [lia|].
  apply (X6_bad_song_count_leaves_14_bytes 65536 "6581" []). lia.
Defined.

(** X7. The writer only appends: for every song count and chip there
    is one outcome and one byte string such that, whatever the file
    already holds, the call has that outcome and leaves the old content
    followed by that string. *)
Theorem X7_header_writer_only_appends song_length chip :
  exists r out,
    forall f, write_sid_header song_length chip f = (r, f ++ out).
Proof.
  destruct (Z_le_dec 0 song_length) as [H0|H0];
    [destruct (Z_le_dec song_length 65535) as [H1|H1]|].
  - eexists. eexists. intros f. apply write_sid_header_ok. lia.
  - eexists. eexists. intros f. apply write_sid_header_raise. lia.
  - eexists. eexists. intros f. apply write_sid_header_raise. lia.
Qed.

(** ** The list of register words *)

Lemma comprehension_Forall2 {A B} (g : A -> result B) l ys :
  comprehension g l = Ok ys -> Forall2 (fun x y => g x = Ok y) l ys.
Proof.
  revert ys. induction l as [|x l IH]; intros ys; cbn [comprehension].
  - intros [= <-]. constructor.
  - destruct (g x) as [y|e] eqn:Ex; [|discriminate]. cbn [rbind].
    destruct (comprehension g l) as [ys'|e]; [|discriminate]. cbn [rbind].
    intros [= <-]. constructor; [exact Ex | apply IH; reflexivity].
Qed.

Lemma comprehension_ok {A B} (g : A -> result B) l :
  Forall (fun x => exists y, g x = Ok y) l ->
  exists ys, comprehension g l = Ok ys.
Proof.
  induction 1 as [|x l [y Hy] _ [ys IH]]; cbn [comprehension].
  - eauto.
  - rewrite Hy, IH. cbn [rbind]. eauto.
Qed.

Lemma comprehension_raise {A B} (g : A -> result B) l e :
  comprehension g l = Raise e ->
  exists pre x post,
    l = pre ++ x :: post /\
    Forall (fun x => exists y, g x = Ok y) pre /\
    g x = Raise e.
Proof.
  induction l as [|x l IH]; cbn [comprehension]; [discriminate|].
  destruct (g x) as [y|e'] eqn:Ex; cbn [rbind].
  - destruct (comprehension g l) as [ys|e'']; cbn [rbind]; [discriminate|].
    intros [= ->]. destruct (IH eq_refl) as (pre & x' & post & -> & Hpre & Hx).
    exists (x :: pre), x', post. split; [reflexivity|]. split; [|exact Hx].
    constructor; [eauto | exact Hpre].
  - intros [= ->]. exists [], x, l. repeat split; [constructor | exact Ex].
Qed.

(** X8. When the quantization of a pitch track succeeds, it yields one
    word per frame, in frame order, each the word of its frame and each
    in [0, 65535]. *)
Theorem X8_one_word_per_frame track chip words :
  comprehension (fun freq => freq_to_sid_value freq chip) track = Ok words ->
  List.length words = List.length track /\
  Forall2 (fun freq w => freq_to_sid_value freq chip = Ok w) track words /\
  Forall (fun w => 0 <= w <= 65535) words.
Proof.
  intros H. apply comprehension_Forall2 in H.
  induction H as [|freq w track words Hw _ (IHl & IH2 & IHr)].
  - repeat split; constructor.
  - split; [cbn [List.length]; congruence|]. split.
    + constructor; assumption.
    + constructor; [apply (word_range _ _ _ Hw) | exact IHr].
Qed.

Lemma X8_witness :
  comprehension (fun freq => freq_to_sid_value freq "6581")
    [hz 440; hz 0; hz 4000] = Ok [7493; 0; 2578] /\
  List.length [7493; 0; 2578] = List.length [hz 440; hz 0; hz 4000] /\
  Forall2 (fun freq w => freq_to_sid_value freq "6581" = Ok w)
    [hz 440; hz 0; hz 4000] [7493; 0; 2578] /\
  Forall (fun w => 0 <= w <= 65535) [7493; 0; 2578].
Proof.
  split; [vm_compute; reflexivity|].
  apply (X8_one_word_per_frame [hz 440; hz 0; hz 4000] "6581"
           [7493; 0; 2578]).
  vm_compute; reflexivity.
Defined.

(** ** The conversion run: success and failure *)

(** X9. A run on a pitch track reports success exactly when every frame
    quantizes without an exception and neither the opening of the
    destination, nor the storing of the bytes, nor the closing [print]
    raises; the destination then holds the header for one song,
    whatever it held before. *)
Theorem X9_run_succeeds_iff_nothing_fails track os chip d d' :
  convert_mp3_to_sid (Ok track) os chip d = (Ok tt, d') <->
  Forall (fun freq => exists w, freq_to_sid_value freq chip = Ok w) track /\
  open_raises os = None /\ store_raises os = None /\
  print_raises os = None /\
  d' = Some (header_image 1 chip).
Proof.
  split.
  - intros Hrun.
    destruct (convert_mp3_to_sid_ok _ _ _ _ _ Hrun) as (Hd & Ho & Hs & Hp).
    split; [|auto].
    unfold convert_mp3_to_sid in Hrun.
    destruct (comprehension _ track) as [words|e] eqn:E; [|discriminate].
    apply comprehension_Forall2 in E.
    induction E; constructor; eauto.
  - intros (Hall & Ho & Hs & Hp & ->).
    destruct (comprehension_ok _ _ Hall) as [words Hw].
    rewrite (convert_mp3_to_sid_opened _ _ _ _ _ Hw Ho), Hs, Hp.
    reflexivity.
Qed.

(** X10. Where a failed run leaves the destination.  A run that raises
    in the decoding stages, at the first frame that does not quantize,
    or at [open], leaves the destination as it was, neither created nor
    truncated.  A run that raises later has created or truncated it:
    the destination holds the first bytes of the header when storing
    them failed, and the whole header when only the closing [print]
    failed.  A failed run ends in no other way. *)
Theorem X10_failed_run_destination oracle os chip d e d' :
  convert_mp3_to_sid oracle os chip d = (Raise e, d') ->
  (d' = d /\
   (oracle = Raise e \/
    (exists pre freq post,
       oracle = Ok (pre ++ freq :: post) /\
       Forall (fun x => exists w, freq_to_sid_value x chip = Ok w) pre /\
       freq_to_sid_value freq chip = Raise e) \/
    (exists track words,
       oracle = Ok track /\
       comprehension (fun freq => freq_to_sid_value freq chip) track
         = Ok words /\
       open_raises os = Some e))) \/
  (open_raises os = None /\
   exists n, store_raises os = Some (e, n) /\
             d' = Some (firstn n (header_image 1 chip))) \/
  (open_raises os = None /\ store_raises os = None /\
   print_raises os = Some e /\ d' = Some (header_image 1 chip)).
Proof.
  unfold convert_mp3_to_sid.
  destruct oracle as [track | e0].
  - destruct (comprehension _ track) as [words | e1] eqn:E.
    + destruct (open_raises os) as [eo|] eqn:Ho.
      * intros [= -> ->]. left. split; [reflexivity|]. right. right.
        exists track, words. auto.
      * rewrite write_sid_header_ok by lia. cbn [app].
        destruct (store_raises os) as [[es n]|] eqn:Hs.
        -- intros [= -> <-]. right. left. split; [reflexivity|].
           exists n. auto.
        -- destruct (print_raises os) as [ep|] eqn:Hp; [|discriminate].
           intros [= -> <-]. right. right. auto.
    + intros [= -> ->]. left. split; [reflexivity|]. right. left.
      destruct (comprehension_raise _ _ _ E) as (pre & x & post & -> & Hp & Hx).
      eauto 6.
  - intros [= -> ->]. left. split; [reflexivity|]. left. reflexivity.
Qed.

(** The closing [print] raises after the file has been written: the
    run fails, and the destination is no longer what it was. *)
Lemma X10_witness :
  convert_mp3_to_sid (Ok [hz 440]) print_fails "6581" (Some [x2a])
    = (Raise OSError, Some (header_image 1 "6581")) /\
  ((Some (header_image 1 "6581") = Some [x2a] /\
    (Ok [hz 440] = Raise OSError \/
     (exists pre freq post,
        Ok [hz 440] = Ok (pre ++ freq :: post) /\
        Forall (fun x => exists w, freq_to_sid_value x "6581" = Ok w) pre /\
        freq_to_sid_value freq "6581" = Raise OSError) \/
     (exists track words,
        Ok [hz 440] = Ok track /\
        comprehension (fun freq => freq_to_sid_value freq "6581") track
          = Ok words /\
        open_raises print_fails = Some OSError))) \/
   (open_raises print_fails = None /\
    exists n, store_raises print_fails = Some (OSError, n) /\
              Some (header_image 1 "6581")
              = Some (firstn n (header_image 1 "6581"))) \/
   (open_raises print_fails = None /\ store_raises print_fails = None /\
    print_raises print_fails = Some OSError /\
    Some (header_image 1 "6581") = Some (header_image 1 "6581"))).
Proof.
  assert (Hrun : convert_mp3_to_sid (Ok [hz 440]) print_fails "6581"
                   (Some [x2a])
                 = (Raise OSError, Some (header_image 1 "6581")))
    by (vm_compute; reflexivity).
  split; [exact Hrun|].
  exact (X10_failed_run_destination (Ok [hz 440]) print_fails "6581"
           (Some [x2a]) OSError (Some (header_image 1 "6581")) Hrun).
Defined.

(** ** The strongest bin: [argmax] and the pitch track *)

Ltac order_cases :=
  repeat match goal with
    | |- context [Z.compare ?a ?b] => destruct (Z.compare_spec a b)
    | H : context [Z.compare ?a ?b] |- _ => destruct (Z.compare_spec a b)
    | |- context [Pos.compare ?a ?b] => destruct (Pos.compare_spec a b)
    | H : context [Pos.compare ?a ?b] |- _ => destruct (Pos.compare_spec a b)
    end.

Lemma fleb_trans x y z :
  fleb x y = true -> fleb y z = true -> fleb x z = true.
Proof.
  unfold fleb, SFleb.
  destruct x as [sx|sx| |sx mx ex], y as [sy|sy| |sy my ey],
    z as [sz|sz| |sz mz ez]; cbn [SFcompare];
    try destruct sx; try destruct sy; try destruct sz;
    try (intros; reflexivity); try (intros; discriminate);
    change (Pos.compare_cont Eq) with Pos.compare;
    intros H1 H2; order_cases; cbn [CompOpp] in *;
    try reflexivity; try discriminate; lia.
Qed.

Lemma fleb_total x y :
  Np.isnan x = false -> Np.isnan y = false ->
  fleb x y = false -> fleb y x = true.
Proof.
  unfold fleb, SFleb.
  destruct x as [sx|sx| |sx mx ex], y as [sy|sy| |sy my ey];
    cbn [SFcompare Np.isnan];
    try destruct sx; try destruct sy;
    try (intros; reflexivity); try (intros; discriminate);
    change (Pos.compare_cont Eq) with Pos.compare;
    intros _ _ H1; order_cases; cbn [CompOpp] in *;
    try reflexivity; try discriminate; lia.
Qed.

Lemma fleb_false_fltb x y :
  Np.isnan x = false -> Np.isnan y = false ->
  fleb y x = false -> fltb x y = true.
Proof.
  unfold fleb, fltb, SFleb, SFltb.
  destruct x as [sx|sx| |sx mx ex], y as [sy|sy| |sy my ey];
    cbn [SFcompare Np.isnan];
    try destruct sx; try destruct sy;
    try (intros; reflexivity); try (intros; discriminate);
    change (Pos.compare_cont Eq) with Pos.compare;
    intros _ _ H1; order_cases; cbn [CompOpp] in *;
    try reflexivity; try discriminate; lia.
Qed.

Lemma fleb_refl x : Np.isnan x = false -> fleb x x = true.
Proof.
  intros Hx. pose proof (fleb_total x x Hx Hx) as H.
  destruct (fleb x x); [reflexivity | apply H; reflexivity].
Qed.

Lemma fleb_nan_l x : fleb S754_nan x = false.
Proof. reflexivity. Qed.

(** The scan answers the index it was given or one of those it looks
    at. *)
Lemma argmax_scan_range ip : forall mp max_ind i,
  let k := Np.argmax_scan mp max_ind i ip in
  (k = max_ind \/ (i <= k < i + List.length ip)%nat).
Proof.
  induction ip as [|x ip IH]; intros mp max_ind i; cbn [Np.argmax_scan].
  - left. reflexivity.
  - cbn [List.length]. destruct (negb (fleb x mp)).
    + destruct (Np.isnan x); [right; lia|].
      specialize (IH x i (S i)). cbn zeta in IH. lia.
    + specialize (IH mp max_ind (S i)). cbn zeta in IH. lia.
Qed.

Lemma scan_top_cons_lt mp x i k ip :
  (k < i)%nat -> scan_top mp i k (x :: ip) = scan_top mp (S i) k ip.
Proof.
  intros H. unfold scan_top.
  destruct (Nat.ltb_spec k i); [|lia].
  destruct (Nat.ltb_spec k (S i)); [reflexivity|lia].
Qed.

Lemma scan_top_cons_ge mp mp' x i k ip :
  (S i <= k)%nat -> scan_top mp i k (x :: ip) = scan_top mp' (S i) k ip.
Proof.
  intros H. unfold scan_top.
  destruct (Nat.ltb_spec k i); [lia|].
  destruct (Nat.ltb_spec k (S i)); [lia|].
  replace (k - i)%nat with (S (k - S i)) by lia. reflexivity.
Qed.

Lemma scan_top_cons_eq mp x i ip : scan_top mp i i (x :: ip) = x.
Proof.
  unfold scan_top. destruct (Nat.ltb_spec i i); [lia|].
  rewrite Nat.sub_diag. reflexivity.
Qed.

Lemma argmax_scan_spec ip : forall mp max_ind i,
  Forall (fun x => Np.isnan x = false) ip -> Np.isnan mp = false ->
  (max_ind < i)%nat ->
  let k := Np.argmax_scan mp max_ind i ip in
  let v := scan_top mp i k ip in
  Np.isnan v = false /\
  fleb mp v = true /\
  Forall (fun x => fleb x v = true) ip /\
  ((i <= k)%nat ->
   fleb v mp = false /\
   forall j, (j < k - i)%nat -> fleb v (nth j ip S754_nan) = false).
Proof.
  induction ip as [|x ip IH]; intros mp max_ind i Hip Hmp Hlt;
    cbn [Np.argmax_scan].
  - cbn zeta. unfold scan_top. destruct (Nat.ltb_spec max_ind i); [|lia].
    repeat split; [exact Hmp | apply fleb_refl, Hmp | constructor | lia | lia].
  - inversion Hip as [|x' ip' Hx Hip']; subst x' ip'.
    destruct (fleb x mp) eqn:Exm; cbn [negb].
    + pose proof (argmax_scan_range ip mp max_ind (S i)) as Hr.
      specialize (IH mp max_ind (S i) Hip' Hmp ltac:(lia)).
      cbn zeta in IH, Hr |- *.
      set (k := Np.argmax_scan mp max_ind (S i) ip) in *.
      assert (Hv : scan_top mp i k (x :: ip) = scan_top mp (S i) k ip).
      { destruct Hr as [-> | Hr]; [apply scan_top_cons_lt; lia|].
        apply scan_top_cons_ge; lia. }
      rewrite Hv. destruct IH as (Hn & Hm & Hall & Hfirst).
      split; [exact Hn|]. split; [exact Hm|]. split.
      * constructor; [apply (fleb_trans _ _ _ Exm Hm) | exact Hall].
      * intros Hik. assert (Hk : (S i <= k)%nat) by lia.
        destruct (Hfirst Hk) as [Hvm Hj]. split; [exact Hvm|].
        intros [|j] Hjlt; cbn [nth].
        -- destruct (fleb (scan_top mp (S i) k ip) x) eqn:E; [|reflexivity].
           rewrite (fleb_trans _ _ _ E Exm) in Hvm. discriminate.
        -- apply Hj. lia.
    + rewrite Hx.
      pose proof (argmax_scan_range ip x i (S i)) as Hr.
      specialize (IH x i (S i) Hip' Hx ltac:(lia)).
      cbn zeta in IH, Hr |- *.
      set (k := Np.argmax_scan x i (S i) ip) in *.
      assert (Hv : scan_top mp i k (x :: ip) = scan_top x (S i) k ip).
      { destruct Hr as [-> | Hr].
        - rewrite scan_top_cons_eq. unfold scan_top.
          destruct (Nat.ltb_spec i (S i)); [reflexivity|lia].
        - apply scan_top_cons_ge; lia. }
      rewrite Hv. destruct IH as (Hn & Hm & Hall & Hfirst).
      pose proof (fleb_total _ _ Hx Hmp Exm) as Hmx.
      split; [exact Hn|]. split; [apply (fleb_trans _ _ _ Hmx Hm)|]. split.
      * constructor; [exact Hm | exact Hall].
      * intros Hik. split.
        -- destruct (fleb (scan_top x (S i) k ip) mp) eqn:E; [|reflexivity].
           rewrite (fleb_trans _ _ _ Hm E) in Exm. discriminate.
        -- intros [|j] Hjlt; cbn [nth].
           ++ apply Hfirst. lia.
           ++ apply Hfirst; lia.
Qed.

Lemma argmax_scan_nan pre post : forall mp max_ind i,
  Forall (fun x => Np.isnan x = false) pre ->
  Np.argmax_scan mp max_ind i (pre ++ S754_nan :: post)
  = (i + List.length pre)%nat.
Proof.
  induction pre as [|x pre IH]; intros mp max_ind i Hpre;
    cbn [Np.argmax_scan app List.length].
  - rewrite fleb_nan_l. cbn. lia.
  - inversion Hpre as [|x' pre' Hx Hpre']; subst.
    rewrite Hx. destruct (negb (fleb x mp)); rewrite IH by assumption; lia.
Qed.

(** X11. On a non-empty column without NaN, [argmax] answers the index
    of the first largest item: no item is above the one at that index,
    and every item before it is strictly below. *)
Theorem X11_argmax_is_first_maximum a :
  a <> [] -> Forall (fun x => Np.isnan x = false) a ->
  exists k top,
    Np.argmax a = Np.Ok k /\
    nth_error a k = Some top /\
    (forall x, In x a -> fleb x top = true) /\
    (forall j x, (j < k)%nat -> nth_error a j = Some x -> fltb x top = true).
Proof.
  intros Hne Hall. destruct a as [|x ip]; [congruence|]. clear Hne.
  inversion Hall as [|x' ip' Hx Hip]; subst x' ip'.
  cbn [Np.argmax]. rewrite Hx.
  pose proof (argmax_scan_range ip x 0%nat 1%nat) as Hr.
  pose proof (argmax_scan_spec ip x 0%nat 1%nat Hip Hx ltac:(lia)) as Hs.
  cbn zeta in Hr, Hs.
  set (k := Np.argmax_scan x 0 1 ip) in *.
  destruct Hs as (Hn & Hm & Hle & Hfirst).
  exists k, (scan_top x 1 k ip). split; [reflexivity|].
  assert (Hk : nth_error (x :: ip) k = Some (scan_top x 1 k ip)).
  { unfold scan_top. destruct (Nat.ltb_spec k 1).
    - replace k with 0%nat by lia. reflexivity.
    - destruct k as [|k']; [lia|]. cbn [nth_error].
      replace (S k' - 1)%nat with k' by lia.
      apply nth_error_nth'. cbn [List.length] in Hr. lia. }
  split; [exact Hk|]. split.
  - intros y [<- | Hy]; [exact Hm|].
    rewrite List.Forall_forall in Hle. apply Hle, Hy.
  - intros j y Hj Hy. destruct (Hfirst ltac:(lia)) as [Hvx Hearlier].
    assert (Hyn : Np.isnan y = false).
    { rewrite List.Forall_forall in Hall. apply Hall.
      apply (nth_error_In _ _ Hy). }
    apply fleb_false_fltb; [exact Hyn | exact Hn |].
    destruct j as [|j']; cbn [nth_error] in Hy.
    + injection Hy as <-. exact Hvx.
    + rewrite <- (nth_error_nth _ _ S754_nan Hy). apply Hearlier. lia.
Qed.

Lemma X11_witness :
  [hz 3; hz 7; hz 1; hz 7] <> [] /\
  Forall (fun x => Np.isnan x = false) [hz 3; hz 7; hz 1; hz 7] /\
  exists k top,
    Np.argmax [hz 3; hz 7; hz 1; hz 7] = Np.Ok k /\
    nth_error [hz 3; hz 7; hz 1; hz 7] k = Some top /\
    (forall x, In x [hz 3; hz 7; hz 1; hz 7] -> fleb x top = true) /\
    (forall j x, (j < k)%nat ->
       nth_error [hz 3; hz 7; hz 1; hz 7] j = Some x -> fltb x top = true).
Proof.
  assert (Hne : [hz 3; hz 7; hz 1; hz 7] <> []) by discriminate.
  assert (Hall : Forall (fun x => Np.isnan x = false)
                   [hz 3; hz 7; hz 1; hz 7])
    by (repeat constructor).
  split; [exact Hne|]. split; [exact Hall|].
  exact (X11_argmax_is_first_maximum [hz 3; hz 7; hz 1; hz 7] Hne Hall).
Defined.

(** X12. A NaN in the column wins: [argmax] answers the index of the
    first NaN, whatever the other items are. *)
Theorem X12_argmax_first_nan pre post :
  Forall (fun x => Np.isnan x = false) pre ->
  Np.argmax (pre ++ S754_nan :: post) = Np.Ok (List.length pre).
Proof.
  intros Hpre. destruct pre as [|x pre]; [reflexivity|].
  inversion Hpre as [|x' pre' Hx Hpre']; subst x' pre'.
  cbn [app Np.argmax List.length]. rewrite Hx.
  rewrite argmax_scan_nan by assumption. reflexivity.
Qed.

Lemma X12_witness :
  Forall (fun x => Np.isnan x = false) [hz 9; S754_infinity false] /\
  Np.argmax ([hz 9; S754_infinity false] ++ S754_nan :: [hz 1; S754_nan])
  = Np.Ok (List.length [hz 9; S754_infinity false]).
Proof.
  assert (Hpre : Forall (fun x => Np.isnan x = false)
                   [hz 9; S754_infinity false])
    by (repeat constructor).
  split; [exact Hpre|].
  exact (X12_argmax_first_nan [hz 9; S754_infinity false]
           [hz 1; S754_nan] Hpre).
Defined.

Lemma argmax_in_range a :
  a <> [] -> exists k, Np.argmax a = Np.Ok k /\ (k < List.length a)%nat.
Proof.
  destruct a as [|x ip]; [congruence|]. intros _. cbn [Np.argmax].
  eexists. split; [reflexivity|]. cbn [List.length].
  destruct (Np.isnan x); [lia|].
  pose proof (argmax_scan_range ip x 0%nat 1%nat) as Hr. cbn zeta in Hr. lia.
Qed.

Lemma column_length a i col :
  Np.column a i = Np.Ok col -> List.length col = Np.shape0 a.
Proof.
  unfold Np.column. destruct (i <? Np.shape1 a)%nat; [|discriminate].
  intros [= <-]. rewrite length_map, length_seq. reflexivity.
Qed.

Lemma pitch_frames_ok pitches magnitudes frames :
  Np.shape0 magnitudes = Np.shape0 pitches ->
  Np.shape1 magnitudes = Np.shape1 pitches ->
  (0 < Np.shape0 pitches)%nat ->
  Forall (fun i => (i < Np.shape1 pitches)%nat) frames ->
  exists track,
    pitch_frames pitches magnitudes frames = Np.Ok track /\
    Forall2 (fun i pitch =>
               exists col idx,
                 Np.column magnitudes i = Np.Ok col /\
                 Np.argmax col = Np.Ok idx /\
                 (idx < Np.shape0 pitches)%nat /\
                 pitch = Np.item pitches idx i) frames track.
Proof.
  intros H0 H1 Hbins. induction 1 as [|i frames Hi _ [track [IHt IH2]]];
    cbn [pitch_frames].
  - exists []. split; [reflexivity | constructor].
  - destruct (Np.column magnitudes i) as [col|e] eqn:Ecol.
    2:{ unfold Np.column in Ecol. rewrite H1 in Ecol.
        destruct (Nat.ltb_spec i (Np.shape1 pitches)); [discriminate | lia]. }
    pose proof (column_length _ _ _ Ecol) as Hlen. rewrite H0 in Hlen.
    destruct (argmax_in_range col) as (idx & Eidx & Hidx).
    { intros ->. cbn in Hlen. lia. }
    rewrite Hlen in Hidx.
    cbn [Np.bind]. rewrite Eidx. cbn [Np.bind].
    unfold Np.get.
    destruct (Nat.ltb_spec idx (Np.shape0 pitches)); [|lia].
    destruct (Nat.ltb_spec i (Np.shape1 pitches)); [|lia].
    cbn [andb Np.bind]. rewrite IHt. cbn [Np.bind].
    eexists. split; [reflexivity|].
    constructor; [|exact IH2]. exists col, idx. auto.
Qed.

(** X13. For spectrogram arrays of one shape with at least one
    frequency bin, the loop of [extract_pitch_track] raises nothing and
    leaves one pitch per frame: for frame [i], the entry of [pitches] in
    the row that [argmax] picks in column [i] of [magnitudes]. *)
Theorem X13_pitch_track_one_pitch_per_frame pitches magnitudes :
  Np.shape0 magnitudes = Np.shape0 pitches ->
  Np.shape1 magnitudes = Np.shape1 pitches ->
  (0 < Np.shape0 pitches)%nat ->
  exists track,
    pitch_track_of pitches magnitudes = Np.Ok track /\
    List.length track = Np.shape1 pitches /\
    forall i, (i < Np.shape1 pitches)%nat ->
      exists col idx,
        Np.column magnitudes i = Np.Ok col /\
        Np.argmax col = Np.Ok idx /\
        (idx < Np.shape0 pitches)%nat /\
        nth_error track i = Some (Np.item pitches idx i).
Proof.
  intros H0 H1 Hbins. unfold pitch_track_of.
  destruct (pitch_frames_ok pitches magnitudes (seq 0 (Np.shape1 pitches))
              H0 H1 Hbins) as (track & Ht & H2).
  { apply List.Forall_forall. intros i Hi. apply in_seq in Hi. lia. }
  exists track. split; [exact Ht|].
  assert (Hlen : List.length track = Np.shape1 pitches).
  { rewrite <- (Forall2_length _ _ _ H2). apply length_seq. }
  split; [exact Hlen|].
  intros i Hi.
  assert (Hgen : forall frames tr,
             Forall2 (fun i pitch =>
               exists col idx,
                 Np.column magnitudes i = Np.Ok col /\
                 Np.argmax col = Np.Ok idx /\
                 (idx < Np.shape0 pitches)%nat /\
                 pitch = Np.item pitches idx i) frames tr ->
             forall n f, nth_error frames n = Some f ->
             exists col idx,
               Np.column magnitudes f = Np.Ok col /\
               Np.argmax col = Np.Ok idx /\
               (idx < Np.shape0 pitches)%nat /\
               nth_error tr n = Some (Np.item pitches idx f)).
  { clear. induction 1 as [|f0 p0 frames tr Hp _ IH]; intros [|n] f Hf;
      cbn [nth_error] in *; try discriminate.
    - injection Hf as <-. destruct Hp as (col & idx & Hc & Ha & Hi & ->).
      exists col, idx. auto.
    - apply IH, Hf. }
  apply (Hgen _ _ H2 i i).
  rewrite nth_error_nth' with (d := 0%nat) by (rewrite length_seq; lia).
  rewrite seq_nth by lia. reflexivity.
Qed.

Lemma X13_witness :
  exists track,
    pitch_track_of sample_pitches sample_magnitudes = Np.Ok track /\
    List.length track = Np.shape1 sample_pitches /\
    forall i, (i < Np.shape1 sample_pitches)%nat ->
      exists col idx,
        Np.column sample_magnitudes i = Np.Ok col /\
        Np.argmax col = Np.Ok idx /\
        (idx < Np.shape0 sample_pitches)%nat /\
        nth_error track i = Some (Np.item sample_pitches idx i).
Proof.
  apply (X13_pitch_track_one_pitch_per_frame sample_pitches sample_magnitudes).
  - reflexivity.
  - reflexivity.
  - cbn. lia.
Defined.

Example sample_pitch_track :
  pitch_track_of sample_pitches sample_magnitudes = Np.Ok [hz 440; hz 880].
Proof. vm_compute. reflexivity. Qed.

(** ** Paths: the extension and the derived file names *)

Lemma take_drop n s : String.append (Path.take n s) (Path.drop n s) = s.
Proof.
  revert n. induction s as [|a s IH]; intros [|n]; try reflexivity.
  change (String a (String.append (Path.take n s) (Path.drop n s))
          = String a s).
  rewrite IH. reflexivity.
Qed.

Lemma get_drop k s : forall n,
  String.get n (Path.drop k s) = String.get (k + n) s.
Proof.
  revert k. induction s as [|a s IH]; intros [|k] n; cbn [Path.drop];
    try reflexivity.
  cbn [Nat.add String.get]. apply IH.
Qed.

Lemma get_take k s : forall n,
  (n < k)%nat -> String.get n (Path.take k s) = String.get n s.
Proof.
  revert k. induction s as [|a s IH]; intros [|k] n Hn; cbn [Path.take];
    try reflexivity; try lia.
  destruct n as [|n]; cbn [String.get]; [reflexivity|]. apply IH. lia.
Qed.

Lemma get_in_range s : forall n,
  (n < String.length s)%nat -> exists a, String.get n s = Some a.
Proof.
  induction s as [|a s IH]; intros n Hn; cbn [String.length] in Hn; [lia|].
  destruct n as [|n]; cbn [String.get]; [eauto|]. apply IH. lia.
Qed.

(** [rfind] answers [-1] or an index of the string. *)
Lemma rfind_from_range c s : forall i,
  0 <= i ->
  Path.rfind_from c s i = -1 \/
  i <= Path.rfind_from c s i < i + Z.of_nat (String.length s).
Proof.
  induction s as [|a s IH]; intros i Hi; cbn [Path.rfind_from String.length].
  - left. reflexivity.
  - cbn zeta. specialize (IH (i + 1) ltac:(lia)).
    destruct (Z.leb_spec 0 (Path.rfind_from c s (i + 1))); [lia|].
    destruct (Ascii.eqb a c); lia.
Qed.

(** The index it answers holds the character, and no later index
    does. *)
Lemma rfind_from_last c s : forall i,
  0 <= i ->
  (0 <= Path.rfind_from c s i ->
   String.get (Z.to_nat (Path.rfind_from c s i - i)) s = Some c) /\
  (forall n, Path.rfind_from c s i - i < Z.of_nat n ->
   String.get n s <> Some c).
Proof.
  induction s as [|a s IH]; intros i Hi; cbn [Path.rfind_from].
  - split; [lia|]. intros n _. destruct n; discriminate.
  - cbn zeta. destruct (IH (i + 1) ltac:(lia)) as [IHa IHb].
    pose proof (rfind_from_range c s (i + 1) ltac:(lia)) as Hr.
    destruct (Z.leb_spec 0 (Path.rfind_from c s (i + 1))) as [Hf|Hf].
    + split.
      * intros _.
        replace (Z.to_nat (Path.rfind_from c s (i + 1) - i))
          with (S (Z.to_nat (Path.rfind_from c s (i + 1) - (i + 1)))) by lia.
        cbn [String.get]. apply IHa. lia.
      * intros [|n] Hn; [lia|]. cbn [String.get]. apply IHb. lia.
    + destruct (Ascii.eqb_spec a c) as [-> | Hac].
      * split.
        -- intros _. rewrite Z.sub_diag. reflexivity.
        -- intros [|n] Hn; [lia|]. cbn [String.get]. apply IHb. lia.
      * split; [lia|].
        intros [|n] Hn; cbn [String.get]; [congruence|]. apply IHb. lia.
Qed.

Lemma rfind_range s c :
  Path.rfind s c = -1 \/ 0 <= Path.rfind s c < Z.of_nat (String.length s).
Proof.
  unfold Path.rfind.
  destruct (rfind_from_range c s 0 ltac:(lia)); [left; assumption | right; lia].
Qed.

Lemma rfind_found s c :
  0 <= Path.rfind s c -> String.get (Z.to_nat (Path.rfind s c)) s = Some c.
Proof.
  unfold Path.rfind. intros H.
  destruct (rfind_from_last c s 0 ltac:(lia)) as [Ha _].
  rewrite Z.sub_0_r in Ha. apply Ha, H.
Qed.

Lemma rfind_after s c n :
  Path.rfind s c < Z.of_nat n -> String.get n s <> Some c.
Proof.
  unfold Path.rfind. intros H.
  destruct (rfind_from_last c s 0 ltac:(lia)) as [_ Hb]. apply Hb. lia.
Qed.

Lemma drop_at k s a :
  String.get k s = Some a ->
  exists rest, Path.drop k s = String a rest /\
               forall n, String.get n rest = String.get (S k + n) s.
Proof.
  intros Hk.
  destruct (Path.drop k s) as [|b rest] eqn:E.
  - pose proof (get_drop k s 0) as H. rewrite E, Nat.add_0_r, Hk in H.
    discriminate.
  - pose proof (get_drop k s 0) as H. rewrite E, Nat.add_0_r, Hk in H.
    cbn in H. injection H as <-. exists rest. split; [reflexivity|].
    intros n. pose proof (get_drop k s (S n)) as H. rewrite E in H.
    cbn [String.get] in H. rewrite H. f_equal. lia.
Qed.

(** What the loop of [splitext] has found when it answers yes: a
    character of the file name, before the dot, that is not a dot. *)
Lemma has_name_found fuel p : forall i,
  0 <= i ->
  (Z.to_nat i + fuel <= String.length p)%nat ->
  Path.has_name fuel p i = true ->
  exists n a, (Z.to_nat i <= n < Z.to_nat i + fuel)%nat /\
              String.get n p = Some a /\ a <> "."%char.
Proof.
  induction fuel as [|fuel IH]; intros i Hi Hlen; cbn [Path.has_name];
    [discriminate|].
  destruct (get_in_range p (Z.to_nat i) ltac:(lia)) as [a Ha]. rewrite Ha.
  destruct (Ascii.eqb_spec a ".") as [-> | Hne].
  - intros H. destruct (IH (i + 1) ltac:(lia) ltac:(lia) H)
      as (n & b & Hn & Hb & Hbd).
    exists n, b. split; [lia|]. split; assumption.
  - intros _. exists (Z.to_nat i), a. split; [lia|]. split; assumption.
Qed.

Lemma append_cancel_l r a b :
  String.append r a = String.append r b -> a = b.
Proof.
  induction r as [|c r IH]; intros H; [exact H|].
  change (String c (String.append r a) = String c (String.append r b)) in H.
  injection H as H. apply IH, H.
Qed.

Lemma append_empty_r s : String.append s EmptyString = s.
Proof.
  induction s as [|c s IH]; [reflexivity|].
  change (String c (String.append s EmptyString) = String c s).
  rewrite IH. reflexivity.
Qed.

(** The two parts of a split path, with what the code has checked when
    the extension is not empty. *)
Lemma splitext_cases p :
  Path.splitext p = (p, EmptyString) \/
  exists rest,
    let dot := Z.to_nat (Path.rfind p ".") in
    Path.splitext p = (Path.take dot p, String "." rest) /\
    Path.rfind p "/" < Path.rfind p "." /\
    (dot < String.length p)%nat /\
    (forall n, String.get n rest = String.get (S dot + n) p) /\
    Path.has_name (Z.to_nat (Path.rfind p "." - (Path.rfind p "/" + 1))) p
      (Path.rfind p "/" + 1) = true.
Proof.
  unfold Path.splitext. cbn zeta.
  destruct (Z.ltb_spec (Path.rfind p "/") (Path.rfind p ".")) as [Hlt|Hge];
    cbn [andb]; [|left; reflexivity].
  destruct (Path.has_name _ p _) eqn:Hname; [|left; reflexivity].
  right.
  pose proof (rfind_range p "/") as Hs. pose proof (rfind_range p ".") as Hd.
  assert (Hd0 : 0 <= Path.rfind p ".") by lia.
  destruct (drop_at _ _ _ (rfind_found p "." Hd0)) as (rest & Hdrop & Hrest).
  exists rest. rewrite Hdrop.
  split; [reflexivity|]. split; [exact Hlt|]. split; [lia|].
  split; [exact Hrest | reflexivity].
Qed.

Lemma splitext_append p :
  String.append (fst (Path.splitext p)) (snd (Path.splitext p)) = p.
Proof.
  unfold Path.splitext. cbn zeta. destruct (_ && _)%bool; cbn [fst snd].
  - apply take_drop.
  - apply append_empty_r.
Qed.

(** X14. [splitext] cuts the path in two without losing a character,
    and the extension is either empty or a dot followed by characters
    that are neither dots nor slashes. *)
Theorem X14_splitext_cuts_at_last_dot p :
  let '(root, ext) := Path.splitext p in
  String.append root ext = p /\
  (ext = EmptyString \/
   exists rest, ext = String "." rest /\
     forall n, String.get n rest <> Some "."%char /\
               String.get n rest <> Some "/"%char).
Proof.
  destruct (splitext_cases p) as [-> | (rest & Hsplit & Hlt & _ & Hrest & _)].
  - split; [apply append_empty_r | left; reflexivity].
  - cbn zeta in Hsplit. pose proof (take_drop (Z.to_nat (Path.rfind p ".")) p)
      as Htd.
    unfold Path.splitext in Hsplit |- *. cbn zeta in Hsplit |- *.
    destruct (_ && _)%bool; [|discriminate].
    injection Hsplit as Hext. rewrite Hext in Htd |- *.
    split; [exact Htd|]. right. exists rest. split; [reflexivity|].
    pose proof (rfind_range p ".") as Hd.
    intros n. rewrite Hrest. split; apply rfind_after; lia.
Qed.

(** X15. When [splitext] finds an extension, the file name in front of
    it is not made of dots alone: the root holds a character that is
    neither a dot nor a slash, with no slash after it.  A name such as
    [.bashrc] or [...] therefore keeps its dots and has no extension. *)
Theorem X15_extension_needs_a_name p root ext :
  Path.splitext p = (root, ext) -> ext <> EmptyString ->
  exists n a,
    String.get n root = Some a /\ a <> "."%char /\ a <> "/"%char /\
    forall j, (n < j)%nat -> String.get j root <> Some "/"%char.
Proof.
  intros Hsplit Hext.
  destruct (splitext_cases p)
    as [E | (rest & E & Hlt & Hlen & _ & Hname)]; rewrite E in Hsplit.
  - injection Hsplit as _ <-. congruence.
  - cbn zeta in Hsplit. injection Hsplit as <- _.
    pose proof (rfind_range p "/") as Hs. pose proof (rfind_range p ".") as Hd.
    destruct (has_name_found
                (Z.to_nat (Path.rfind p "." - (Path.rfind p "/" + 1))) p
                (Path.rfind p "/" + 1) ltac:(lia) ltac:(lia) Hname)
      as (n & a & Hn & Ha & Hdot).
    exists n, a.
    rewrite get_take by lia. split; [exact Ha|]. split; [exact Hdot|]. split.
    + intros ->. apply (rfind_after p "/" n); [lia | exact Ha].
    + intros j Hj Hget.
      destruct (Nat.lt_ge_cases j (Z.to_nat (Path.rfind p "."))) as [Hjd|Hjd].
      * rewrite get_take in Hget by lia.
        apply (rfind_after p "/" j); [lia | exact Hget].
      * assert (Hnone : String.get j (Path.take (Z.to_nat (Path.rfind p ".")) p)
                        = None).
        { clear -Hjd. revert j Hjd.
          generalize (Z.to_nat (Path.rfind p ".")) as k.
          induction p as [|c p IH]; intros [|k] j Hj; cbn [Path.take];
            try (destruct j; reflexivity).
          destruct j as [|j]; [lia|]. cbn [String.get]. apply IH. lia. }
        congruence.
Qed.

Lemma X15_witness :
  Path.splitext "music/.demo.v2.mp3" = ("music/.demo.v2", ".mp3") /\
  exists n a,
    String.get n "music/.demo.v2" = Some a /\ a <> "."%char /\ a <> "/"%char /\
    forall j, (n < j)%nat -> String.get j "music/.demo.v2" <> Some "/"%char.
Proof.
  assert (E : Path.splitext "music/.demo.v2.mp3" = ("music/.demo.v2", ".mp3"))
    by reflexivity.
  split; [exact E|].
  apply (X15_extension_needs_a_name "music/.demo.v2.mp3" "music/.demo.v2"
           ".mp3" E).
  discriminate.
Defined.

(** X16. The file names the converter derives from its input: the WAV
    path and the default output differ from each other on every input;
    the WAV path is the input itself exactly when the input already has
    the extension [.wav], and the default output is the input itself
    exactly when it has the extension [.sid]; an empty [--output] gives
    the default. *)
Theorem X16_derived_paths input :
  out_file_of input None <> wav_path_of input /\
  (wav_path_of input = input <-> snd (Path.splitext input) = ".wav") /\
  (out_file_of input None = input <-> snd (Path.splitext input) = ".sid") /\
  out_file_of input (Some "") = out_file_of input None.
Proof.
  pose proof (splitext_append input) as Happ.
  unfold out_file_of, wav_path_of. cbn [String.eqb].
  destruct (Path.splitext input) as [root ext]. cbn [fst snd] in *.
  split; [|split; [|split; [|reflexivity]]].
  - intros H. apply append_cancel_l in H. discriminate.
  - rewrite <- Happ. split.
    + intros H. apply append_cancel_l in H. congruence.
    + intros ->. reflexivity.
  - rewrite <- Happ. split.
    + intros H. apply append_cancel_l in H. congruence.
    + intros ->. reflexivity.
Qed.

Example splitext_samples :
  Path.splitext "song.mp3" = ("song", ".mp3") /\
  Path.splitext "a/b.c/song" = ("a/b.c/song", "") /\
  Path.splitext ".bashrc" = (".bashrc", "") /\
  Path.splitext "dir/..x.tar.gz" = ("dir/..x.tar", ".gz") /\
  Path.splitext "a/...." = ("a/....", "") /\
  Path.splitext "" = ("", "") /\
  Path.splitext "x." = ("x", ".").
Proof. repeat split. Qed.

Example derived_path_samples :
  wav_path_of "tune.mp3" = "tune.wav" /\
  out_file_of "tune.mp3" None = "tune.sid" /\
  out_file_of "tune.mp3" (Some "out/a.sid") = "out/a.sid" /\
  wav_path_of "take.wav" = "take.wav" /\
  out_file_of "v1.2/tune" None = "v1.2/tune.sid".
Proof. repeat split. Qed.
